(** * Timeline drag/ghost placement and scene synchronisation

  A shallow embedding of
    - [src/components/Timeline/TimelineRow.jsx]  (type compatibility, hover
      and drop handlers of a timeline row), and
    - [src/mobx/store-modules/refreshElements.js] (the scene refresh pass),
  together with the properties the specification states about them.

  JavaScript numbers are idealised: times and pointer coordinates are
  rationals ([Q]), row indices are integers ([Z]).  Element kinds are the
  strings the code compares with [===]. *)

From Stdlib Require Import List Bool String Ascii ZArith QArith Qminmax Qround Lia Lqa.
From Stdlib Require Import Permutation Sorted DecimalString DecimalN DecimalPos.
Import ListNotations.

Local Open Scope string_scope.

(* ================================================================== *)
(** ** Type compatibility (TimelineRow.jsx, lines 29-46)               *)
(* ================================================================== *)

Module Compat.

(** [Array.prototype.includes] on an array of strings. *)
Definition includes (arr : list string) (x : string) : bool :=
  existsb (String.eqb x) arr.

Definition mixableTypes : list string :=
  ["audio"; "video"; "imageUrl"; "image"].

Definition areTypesCompatible (type1 type2 : string) : bool :=
  let isType1Subtitle := String.eqb type1 "text" in
  let isType2Subtitle := String.eqb type2 "text" in
  if isType1Subtitle || isType2Subtitle then
    isType1Subtitle && isType2Subtitle
  else if String.eqb type1 "animation" || String.eqb type2 "animation" then
    true
  else
    includes mixableTypes type1 && includes mixableTypes type2.

(** The declared kind set of the data model, and the string each kind is
    written as in the code. *)
Inductive Kind : Type :=
  KVideo | KImage | KImageUrl | KAudio | KText | KAnimation.

Definition kindName (k : Kind) : string :=
  match k with
  | KVideo => "video"
  | KImage => "image"
  | KImageUrl => "imageUrl"
  | KAudio => "audio"
  | KText => "text"
  | KAnimation => "animation"
  end.

Definition declaredKinds : list string :=
  map kindName [KVideo; KImage; KImageUrl; KAudio; KText; KAnimation].

(** The policy table of the specification, written from its three rules
    and independently of the code:
    text only with text; animation with anything except text;
    audio, video, imageUrl and image mutually compatible. *)
Definition isMedia (k : Kind) : bool :=
  match k with
  | KVideo | KImage | KImageUrl | KAudio => true
  | _ => false
  end.

Definition policy (a b : Kind) : bool :=
  match a, b with
  | KText, KText => true
  | KText, _ | _, KText => false
  | KAnimation, _ | _, KAnimation => true
  | _, _ => isMedia a && isMedia b
  end.

(** The row-acceptance test of the hover and drop handlers:
    [!rowType || areTypesCompatible(rowType, draggedType)], where
    [rowType = overlays[0]?.type] is [undefined] on an empty row.  In
    JavaScript the empty string is falsy as well. *)
Definition truthy (s : option string) : bool :=
  match s with
  | None => false
  | Some s => negb (String.eqb s "")
  end.

Definition isCompatible (rowType : option string) (draggedType : string) : bool :=
  negb (truthy rowType) ||
  match rowType with
  | Some r => areTypesCompatible r draggedType
  | None => false
  end.

End Compat.

(* ================================================================== *)
(** ** Data model                                                      *)
(* ================================================================== *)

Module Timeline.

Record TimeFrame : Type := mkTimeFrame { start : Q; end_ : Q }.

Inductive ObjKind : Type := CoverVideo | CoverImage | UrlImage | Textbox.

(** A realised visual node.  Objects are compared by reference in the code
    ([removeFromArray], [el.fabricObject === e.target]); [oid] is that
    identity.  [name] is the id of the element the node was made for.  Of
    the geometry only [left] and [top] are kept. *)
Record Obj : Type := mkObj {
  oid : nat;
  name : string;
  kind : ObjKind;
  source : string;
  left : Q;
  top : Q
}.

Record Placement : Type := mkPlacement { x : Q; y : Q }.

(** The [properties] payload.  A field that the code dereferences without a
    guard is an [option]: [None] is JavaScript's [undefined], and reading a
    property of it raises a [TypeError]. *)
Record Properties : Type := mkProperties {
  elementId : string;
  src : option string;
  hideInCanvas : bool;
  timelineOnly : bool;
  effect : option string;
  text : string;
  backgroundColor : option string;
  color : option string;
  strokeColor : option string;
  words : nat;
  wordObjects : option nat
}.

Record Element : Type := mkElement {
  id : string;
  type : string;
  subType : string;
  row : Z;
  timeFrame : TimeFrame;
  placement : Placement;
  properties : Properties;
  fabricObject : option Obj
}.

Definition tfStart (e : Element) : Q := start (timeFrame e).
Definition tfEnd (e : Element) : Q := end_ (timeFrame e).

Definition duration (e : Element) : Q := tfEnd e - tfStart e.


Definition withRow (e : Element) (r : Z) : Element :=
  mkElement (id e) (type e) (subType e) r (timeFrame e) (placement e)
            (properties e) (fabricObject e).

Definition withFabricObject (e : Element) (o : option Obj) : Element :=
  mkElement (id e) (type e) (subType e) (row e) (timeFrame e) (placement e)
            (properties e) o.

(** [Array.prototype.sort(cmp)] for a comparator that is consistent: the
    sort is stable (ECMAScript 2019), so its result is the one of a stable
    insertion sort.  [gt a b] stands for [cmp(a, b) > 0], that is, [b] has
    to come before [a]. *)
Section JsSort.
Context {A : Type} (gt : A -> A -> bool).

Fixpoint insertSorted (a : A) (l : list A) : list A :=
  match l with
  | [] => [a]
  | b :: t => if gt a b then b :: insertSorted a t else a :: b :: t
  end.

Definition jsSort (l : list A) : list A := fold_right insertSorted [] l.

(** [a] may stand before [b]: the comparator does not ask for a swap. *)
Definition notAfter (a b : A) : Prop := gt a b = false.

End JsSort.

(** An element with a bare payload: what the placement code reads. *)
Definition plainProperties : Properties :=
  mkProperties "" None false false None "" None None None 0 None.

Definition element (i t : string) (r : Z) (s e : Q) : Element :=
  mkElement i t "" r (mkTimeFrame s e) (mkPlacement 0 0) plainProperties None.

(** [a || d] for a number that may be [undefined]: [0] is falsy too. *)
Definition orDefault (a : option Q) (d : Q) : Q :=
  match a with
  | Some v => if Qeq_bool v 0 then d else v
  | None => d
  end.

End Timeline.

(* ================================================================== *)
(** ** Ghost previews started by the hover and drag-enter handlers      *)
(* ================================================================== *)

Module GhostStart.
Import Timeline.

(** The payload react-dnd hands to the row; [None] is an absent field. *)
Record DraggedItem : Type := mkDraggedItem {
  itemType : string;
  itemId : string;
  image : option (option Q);
  video : option (option Q);
  itemEffect : option (option Q);
  animation : option (option Q);
  glTransition : option (option Q)
}.

(** [asset?.duration]: the asset may be missing, and so may its duration. *)
Definition assetDuration (asset : option (option Q)) : option Q :=
  match asset with
  | Some d => d
  | None => None
  end.

(** The arguments [(elementType, defaultDuration)] with which [handleHover]
    calls [store.startGalleryGhostDrag] (lines 172-355), by payload kind;
    [None] for a payload that starts no gallery ghost. *)
Definition startGalleryGhostDrag (draggedItem : DraggedItem) : option (string * Q) :=
  let t := itemType draggedItem in
  if String.eqb t "gallery-image" || String.eqb t "scene-image" then
    Some ("imageUrl", 5000%Q)
  else if String.eqb t "gallery-video" || String.eqb t "scene-video" then
    Some ("video", orDefault (assetDuration (video draggedItem)) 10000%Q)
  else if String.eqb t "animation-effect" then
    Some ("video", orDefault (assetDuration (itemEffect draggedItem)) 10000%Q)
  else if String.eqb t "animation-drop" then
    Some ("animation", orDefault (assetDuration (animation draggedItem)) 1000%Q)
  else if String.eqb t "gl-transition-drop" then
    Some ("transition", orDefault (assetDuration (glTransition draggedItem)) 1000%Q)
  else None.




End GhostStart.

(* ================================================================== *)
(** ** The drop handler of a row (TimelineRow.jsx, lines 537-1283)      *)
(* ================================================================== *)

Module Drop.
Import Timeline.

Record GhostState : Type := mkGhostState {
  isDragging : bool;
  isMultiDragging : bool;
  isAnimationDrag : bool;
  isGalleryDragging : bool;
  draggedElement : option Element;
  initialClientX : option Q;
  initialElementStart : Q;
  initialElementStarts : list Q;
  selectedElements : list Element
}.

Definition noGhost : GhostState :=
  mkGhostState false false false false None None 0 [] [].

Record Store : Type := mkStore {
  editorElements : list Element;
  maxTime : Q;
  selectedIds : list string;
  ghostState : GhostState
}.

Definition withGhost (s : Store) (g : GhostState) : Store :=
  mkStore (editorElements s) (maxTime s) (selectedIds s) g.

Definition withElements (s : Store) (l : list Element) : Store :=
  mkStore l (maxTime s) (selectedIds s) (ghostState s).

(** [dropRef.current.getBoundingClientRect()]; a rendered row has
    [0 < width]. *)
Record Rect : Type := mkRect { rectLeft : Q; width : Q }.

(** The calls the drop handler makes on store methods that live outside
    these two files.  The position of [finishMultiGhostDrag] is [None] when
    it is [NaN]. *)
Inductive StoreCall : Type :=
| FinishGhostDrag (finalPosition : Q) (rowIndex : Z)
| FinishAnimationGhostDrag (finalPosition : Q) (rowIndex : Z)
| FinishMultiGhostDrag (finalPosition : option Q)
| ShiftRowsDown (fromRow : Z)
| AddImageLocal (targetRow : Z) (startTime : Q)
| AddAnimation (targetRow : Z) (absoluteStart absoluteEnd : Q).

(** [overlays[0]?.type] *)
Definition rowType (overlays : list Element) : option string :=
  match overlays with
  | [] => None
  | e :: _ => Some (type e)
  end.

(** [arr.find(el => el.id === i)] and [arr.findIndex(el => el.id === i)];
    [findIndex] gives [None] for JavaScript's [-1]. *)
Definition findById (i : string) (l : list Element) : option Element :=
  find (fun el => String.eqb (id el) i) l.


(** [Math.max(0, Math.min(store.maxTime, anchor + deltaTime))] with
    [deltaTime = (deltaX / width) * maxTime] and
    [deltaX = clientX - initialClientX].  On a rectangle of width [0] the
    division yields [NaN] or an infinity in JavaScript, which [Q] does not
    have ([x / 0] is [0] in [Q]): [deltaTime] stands for the code on
    rectangles with [0 < width] only, and every statement about a position
    assumes that. *)
Definition deltaTime (s : Store) (rect : Rect) (clientX initialX : Q) : Q :=
  ((clientX - initialX) / width rect) * maxTime s.

Definition clampToTimeline (s : Store) (v : Q) : Q :=
  Qmax 0 (Qmin (maxTime s) v).

(** [if (ghostState.initialClientX === null) ghostState.initialClientX = x] *)
Definition anchorPointer (g : GhostState) (clientX : Q) : GhostState :=
  match initialClientX g with
  | Some _ => g
  | None =>
      mkGhostState (isDragging g) (isMultiDragging g) (isAnimationDrag g)
                   (isGalleryDragging g) (draggedElement g) (Some clientX)
                   (initialElementStart g) (initialElementStarts g)
                   (selectedElements g)
  end.

(** [clientX - ghostState.initialClientX]: in arithmetic [null] is [0]. *)
Definition nullAsZero (v : option Q) : Q :=
  match v with
  | Some q => q
  | None => 0
  end.

(** *** Store methods called by the handlers *)










(** Modelled from the spec: [store.shiftRowsDown], which is not in the two
    source files.  Section 3: all rows at or after index [N] move down by
    one. *)
Definition shiftRowsDown (s : Store) (fromRow : Z) : Store :=
  withElements s
    (map (fun el => if Z.leb fromRow (row el) then withRow el (row el + 1) else el)
         (editorElements s)).

(** *** The timeline-item branch of [drop] *)

(** Single ghost drop (lines 574-607).  The result is the store as the
    handler itself leaves it and the store calls it makes, in order. *)
Definition dropSingleGhost (s : Store) (overlays : list Element) (rowIndex : Z)
    (rect : Rect) (clientX : Q) : Store * list StoreCall :=
  let g := ghostState s in
  match draggedElement g with
  | None => (s, [])
  | Some dragged =>
      if Compat.isCompatible (rowType overlays) (type dragged) then
        let g' := anchorPointer g clientX in
        let dt := deltaTime s rect clientX (nullAsZero (initialClientX g')) in
        let finalPosition := clampToTimeline s (initialElementStart g' + dt) in
        (withGhost s g',
         [if isAnimationDrag g' then FinishAnimationGhostDrag finalPosition rowIndex
          else FinishGhostDrag finalPosition rowIndex])
      else (s, [])
  end.



(** *** The multi-ghost branch of [handleHover] (lines 357-413) *)





(** *** Gap scan of the gallery-image fallback (lines 644-690) *)

(** One run of
    [for (let i = 0; i <= sortedElements.length; i++)] with [k] iterations
    left, from index [i]; [Some t] is [startTime = t; hasSpace = true]. *)
Fixpoint gapLoop (sortedElements : list Element) (maxT minGap : Q)
    (k i : nat) : option Q :=
  match k with
  | O => None
  | S k' =>
      let currentStart :=
        if Nat.eqb i 0 then 0
        else nth (i - 1) (map tfEnd sortedElements) 0 in
      let nextStart :=
        if Nat.eqb i (List.length sortedElements) then maxT
        else nth i (map tfStart sortedElements) 0 in
      if Qle_bool minGap (nextStart - currentStart) then Some currentStart
      else gapLoop sortedElements maxT minGap k' (S i)
  end.

Definition byStart (a b : Element) : bool :=
  negb (Qle_bool (tfStart a - tfStart b) 0).

(** [(startTime, hasSpace)] after the scan.  [minGap] is the literal of the
    copy of the scan at hand: [5000] in the image branches, [10000] in the
    video branches. *)
Definition findSpace (s : Store) (rowIndex : Z) (minGap : Q) : Q * bool :=
  let rowElements := filter (fun el => Z.eqb (row el) rowIndex) (editorElements s) in
  match rowElements with
  | [] => (0, true)
  | _ =>
      let sortedElements := jsSort byStart rowElements in
      match gapLoop sortedElements (maxTime s) minGap
                    (S (List.length sortedElements)) 0 with
      | Some t => (t, true)
      | None => (0, false)
      end
  end.

(** The store calls of a gallery-image drop when no ghost is active. *)
Definition dropGalleryImageFallback (s : Store) (rowIndex : Z) : list StoreCall :=
  let '(startTime, hasSpace) := findSpace s rowIndex 5000 in
  if hasSpace then [AddImageLocal rowIndex startTime]
  else [ShiftRowsDown (rowIndex + 1); AddImageLocal (rowIndex + 1) 0].

(** The store calls of an animation drop when no ghost is active (lines
    1111-1154): no scan, the animation starts at 0 on the target row.
    Its duration is
    [actualProperties.duration || animationData.duration || 600]. *)
Definition dropAnimationFallback (propertiesDuration animationDuration : option Q)
    (rowIndex : Z) : list StoreCall :=
  let d := orDefault propertiesDuration (orDefault animationDuration 600) in
  [AddAnimation rowIndex 0 d].

(** The gaps of a row as the specification describes them: the region
    before the first element, the regions between neighbours, the region
    after the last element up to [maxTime]; and the start of the first one
    that is at least [minGap] wide. *)
Definition gaps (sortedElements : list Element) (maxT : Q) : list (Q * Q) :=
  combine (0 :: map tfEnd sortedElements)
          (map tfStart sortedElements ++ [maxT]).

Definition wideEnough (minGap : Q) (g : Q * Q) : bool :=
  Qle_bool minGap (snd g - fst g).

Definition firstGap (minGap : Q) (sortedElements : list Element) (maxT : Q)
  : option Q :=
  option_map fst (find (wideEnough minGap) (gaps sortedElements maxT)).

Definition rowElementsOf (s : Store) (rowIndex : Z) : list Element :=
  filter (fun el => Z.eqb (row el) rowIndex) (editorElements s).

(** The row of the specification's example: elements at [0,2000] and
    [5000,7000] on row [0], [maxTime = 10000]. *)
Definition exampleRow : Store :=
  mkStore [element "a" "imageUrl" 0 0 2000; element "b" "imageUrl" 0 5000 7000]
          10000 [] noGhost.

(** A single drag in progress: the clip at [6000,9000] of a 10000 ms
    timeline, picked up with the pointer at x = 100. *)
Definition draggedClip : Element := element "clip" "video" 0 6000 9000.

Definition singleDragStore : Store :=
  mkStore [draggedClip; element "tune" "audio" 1 0 4000] 10000 []
          (mkGhostState true false false false (Some draggedClip) (Some 100)
                        6000 [] []).





End Drop.

(* ================================================================== *)
(** ** The scene refresh pass (refreshElements.js)                     *)
(* ================================================================== *)

Module Refresh.
Import Timeline.

Inductive DomTag : Type := VideoTag | ImgTag | AudioTag | OtherTag.

Record DomNode : Type := mkDomNode { domId : string; tag : DomTag }.

(** Calls that leave the two files, in the order they are made, and the
    line the [catch] block writes to the console. *)
Inductive Call : Type :=
| CanvasOff (event : string)
| CanvasOn (event : string)
| UpdateCanvasFrameFill
| CreateSubtitleBackground (elementId : string)
| InitializeWordAnimations (elementId : string)
| UpdateWordObjects (elementId : string)
| SetActiveObject (object : nat)
| RefreshAnimations
| UpdateTimeTo
| UpdateWordZIndex (elementId : string)
| RequestRenderAll
| ConsoleError.

(** An image load handed to [fabric.Image.fromURL]: the URL, the element and
    the paint index its completion callback closes over.  [issuedBy] is
    ghost state, the number of the pass that issued the load; the code keeps
    no such number. *)
Record Load : Type := mkLoad {
  loadUrl : string;
  loadElement : Element;
  loadIndex : nat;
  issuedBy : nat
}.

(** *** The canvas *)

(** [removeFromArray]: the first occurrence of the object goes. *)
Fixpoint removeFromArray (o : Obj) (l : list Obj) : list Obj :=
  match l with
  | [] => []
  | o' :: t => if Nat.eqb (oid o') (oid o) then t else o' :: removeFromArray o t
  end.

(** [canvas.add], [canvas.moveTo(object, index)] (remove, then splice in at
    [index]; an index past the end appends) and [object.bringToFront()]. *)
Definition add (o : Obj) (l : list Obj) : list Obj := l ++ [o].

Definition moveTo (o : Obj) (index : nat) (l : list Obj) : list Obj :=
  let l' := removeFromArray o l in
  firstn index l' ++ o :: skipn index l'.

Definition bringToFront (o : Obj) (l : list Obj) : list Obj :=
  removeFromArray o l ++ [o].

(** *** The state a pass works on, and the monad of its loop body *)

Record PassState : Type := mkPassState {
  objects : list Obj;
  elements : list Element;
  document : list DomNode;
  calls : list Call;
  nextOid : nat;
  imagePromises : list Load
}.

(** How a piece of the loop body ends: normally, with [continue], or with a
    thrown error. *)
Inductive Completion (A : Type) : Type :=
| Normal (a : A)
| Continued
| Thrown.
Arguments Normal {A} a.
Arguments Continued {A}.
Arguments Thrown {A}.

Definition M (A : Type) : Type := PassState -> Completion A * PassState.

Definition ret {A : Type} (a : A) : M A := fun st => (Normal a, st).

Definition bind {A B : Type} (m : M A) (k : A -> M B) : M B :=
  fun st =>
    match m st with
    | (Normal a, st') => k a st'
    | (Continued, st') => (Continued, st')
    | (Thrown, st') => (Thrown, st')
    end.

Notation "x <- m ;; k" := (bind m (fun x => k))
  (at level 61, m at next level, right associativity).
Notation "m ;;; k" := (bind m (fun _ => k))
  (at level 61, right associativity).

Definition continue_ {A : Type} : M A := fun st => (Continued, st).

(** Reading a property of [undefined] throws a [TypeError]. *)
Definition defined {A : Type} (v : option A) : M A :=
  fun st => match v with
            | Some a => (Normal a, st)
            | None => (Thrown, st)
            end.

Definition modify (f : PassState -> PassState) : M unit :=
  fun st => (Normal tt, f st).

Definition getElementById (i : string) : M (option DomNode) :=
  fun st => (Normal (find (fun n => String.eqb (domId n) i) (document st)), st).

Definition onCanvas (f : list Obj -> list Obj) : M unit :=
  modify (fun st => mkPassState (f (objects st)) (elements st) (document st)
                                (calls st) (nextOid st) (imagePromises st)).

Definition call (c : Call) : M unit :=
  modify (fun st => mkPassState (objects st) (elements st) (document st)
                                (calls st ++ [c]) (nextOid st) (imagePromises st)).

Definition appendChild (n : DomNode) : M unit :=
  modify (fun st => mkPassState (objects st) (elements st) (document st ++ [n])
                                (calls st) (nextOid st) (imagePromises st)).

Definition pushPromise (l : Load) : M unit :=
  modify (fun st => mkPassState (objects st) (elements st) (document st)
                                (calls st) (nextOid st) (imagePromises st ++ [l])).

(** [new fabric.X(source, { name: element.id, left: placement.x,
    top: placement.y, ... })]: a fresh object. *)
Definition newObject (k : ObjKind) (element : Element) (src : string) : M Obj :=
  fun st =>
    (Normal (mkObj (nextOid st) (id element) k src
                   (x (placement element)) (y (placement element))),
     mkPassState (objects st) (elements st) (document st) (calls st)
                 (S (nextOid st)) (imagePromises st)).

(** [element.fabricObject = o].  Elements are shared objects; the
    assignment shows in the element list, where the element is found by its
    id. *)
Definition assignFabricObject (i : string) (o : Obj) (l : list Element)
  : list Element :=
  map (fun el => if String.eqb (id el) i then withFabricObject el (Some o) else el) l.

Definition setFabricObject (element : Element) (o : Obj) : M unit :=
  modify (fun st => mkPassState (objects st)
                                (assignFabricObject (id element) o (elements st))
                                (document st) (calls st) (nextOid st)
                                (imagePromises st)).

Definition isHtmlVideoElement (n : DomNode) : bool :=
  match tag n with VideoTag => true | _ => false end.

Definition isHtmlImageElement (n : DomNode) : bool :=
  match tag n with ImgTag => true | _ => false end.

(** [s.includes(needle)] *)
Fixpoint strIncludes (needle s : string) : bool :=
  String.prefix needle s ||
  match s with
  | EmptyString => false
  | String _ t => strIncludes needle t
  end.

(** [src + (src.includes('?') ? '&' : '?') + '_cb=' + Date.now()] *)
Definition cacheBustUrl (src : string) (now : N) : string :=
  src ++ (if strIncludes "?" src then "&" else "?") ++ "_cb="
      ++ NilZero.string_of_uint (N.to_uint now).

Definition nonEmpty (v : option string) : bool :=
  match v with
  | Some s => negb (String.eqb s "")
  | None => false
  end.

(** *** The cases of the [switch] (lines 68-455)

    Each yields the element's [fabricObject] as the case leaves it. *)

Definition materializeVideo (element : Element) : M (option Obj) :=
  node <- getElementById (elementId (properties element)) ;;
  match node with
  | None => continue_
  | Some videoElement =>
      if negb (isHtmlVideoElement videoElement) then continue_
      else
        customFilter <- defined (effect (properties element)) ;;
        videoObject <- newObject CoverVideo element (domId videoElement) ;;
        setFabricObject element videoObject ;;;
        onCanvas (add videoObject) ;;;
        ret (Some videoObject)
  end.

Definition materializeImage (now : N) (pass index : nat) (element : Element)
  : M (option Obj) :=
  if hideInCanvas (properties element) then ret (fabricObject element)
  else
    match fabricObject element with
    | Some o =>
        (* [element.fabricObject.set({ left, top, ... })] changes the object
           in place: same identity, new position *)
        let o' := mkObj (oid o) (name o) (kind o) (source o)
                        (x (placement element)) (y (placement element)) in
        setFabricObject element o' ;;;
        onCanvas (add o') ;;;
        ret (Some o')
    | None =>
        if String.eqb (type element) "image" then
          node <- getElementById (elementId (properties element)) ;;
          match node with
          | None => continue_
          | Some imageElement =>
              if negb (isHtmlImageElement imageElement) then continue_
              else
                customFilter <- defined (effect (properties element)) ;;
                imageObject <- newObject CoverImage element (domId imageElement) ;;
                setFabricObject element imageObject ;;;
                onCanvas (add imageObject) ;;;
                ret (Some imageObject)
          end
        else if String.eqb (type element) "imageUrl"
                && nonEmpty (src (properties element)) then
          match src (properties element) with
          | Some url =>
              pushPromise (mkLoad (cacheBustUrl url now) element index pass) ;;;
              ret None
          | None => ret None
          end
        else ret None
    end.

Definition materializeText (index : nat) (element : Element) : M (option Obj) :=
  if timelineOnly (properties element) then ret (fabricObject element)
  else
    backgroundColor <- defined (backgroundColor (properties element)) ;;
    textColor <- defined (color (properties element)) ;;
    strokeColor <- defined (strokeColor (properties element)) ;;
    textObject <- newObject Textbox element (text (properties element)) ;;
    setFabricObject element textObject ;;;
    onCanvas (add textObject) ;;;
    onCanvas (moveTo textObject index) ;;;
    onCanvas (bringToFront textObject) ;;;
    (if String.eqb (subType element) "subtitles"
     then call (CreateSubtitleBackground (id element)) else ret tt) ;;;
    (if Nat.ltb 0 (words (properties element)) then
       match wordObjects (properties element) with
       | None | Some O => call (InitializeWordAnimations (id element))
       | Some (S _) => call (UpdateWordObjects (id element))
       end
     else ret tt) ;;;
    ret (Some textObject).

Definition materializeAudio (element : Element) : M (option Obj) :=
  node <- getElementById (elementId (properties element)) ;;
  match node with
  | None =>
      appendChild (mkDomNode (elementId (properties element)) AudioTag) ;;;
      ret (fabricObject element)
  | Some _ => ret (fabricObject element)
  end.

(** The body of the loop for the element at [index] (lines 63-464). *)
Definition processElement (now : N) (pass index : nat) (element : Element)
  : M unit :=
  fabricObject <-
    (let t := type element in
     if String.eqb t "video" then materializeVideo element
     else if String.eqb t "image" || String.eqb t "imageUrl"
          then materializeImage now pass index element
     else if String.eqb t "text" then materializeText index element
     else if String.eqb t "audio" then materializeAudio element
     else continue_) ;;
  match fabricObject with
  | Some o => onCanvas (moveTo o index)
  | None => ret tt
  end.

(** [for (let index = 0; ...)]: [true] when an iteration threw, which ends
    the loop. *)
Fixpoint processElements (now : N) (pass index : nat) (l : list Element)
    (st : PassState) : bool * PassState :=
  match l with
  | [] => (false, st)
  | element :: rest =>
      match processElement now pass index element st with
      | (Thrown, st') => (true, st')
      | (_, st') => processElements now pass (S index) rest st'
      end
  end.

(** The comparator of [sortedElements] (lines 39-43). *)
Definition comparePaint (a b : Element) : Z :=
  if String.eqb (type a) "text" && negb (String.eqb (type b) "text") then 1
  else if String.eqb (type b) "text" && negb (String.eqb (type a) "text") then (-1)
  else (row b - row a)%Z.

(** [cmp(a, b) > 0]: the sort puts [b] before [a]. *)
Definition gtPaint (a b : Element) : bool := Z.ltb 0 (comparePaint a b).

Definition sortedElements (l : list Element) : list Element :=
  jsSort gtPaint l.

(** What the order amounts to: text after everything else, and inside the
    text group and inside the rest alike, a row of higher index first. *)
Definition isText (e : Element) : bool := String.eqb (type e) "text".

Definition paintBefore (a b : Element) : Prop :=
  (isText a = true -> isText b = true) /\
  (isText a = isText b -> (row b <= row a)%Z).

(** The elements the comparator cannot tell apart: same group, same row. *)
Definition inClass (t : bool) (r : Z) (e : Element) : bool :=
  Bool.eqb (isText e) t && Z.eqb (row e) r.

(** The position of an element in the sorted list is its paint index:
    [canvas.moveTo(element.fabricObject, index)]; a higher index is painted
    later, on top. *)
Fixpoint paintIndex (i : string) (l : list Element) : option nat :=
  match l with
  | [] => None
  | e :: t => if String.eqb (id e) i then Some O
              else option_map S (paintIndex i t)
  end.

(** *** The pass (lines 4-496) *)

Record Store : Type := mkStore {
  canvas : option (list Obj);
  isRefreshingElements : bool;
  editorElements : list Element;
  selectedElement : option string;
  dom : list DomNode;
  trace : list Call;
  objectCount : nat;
  generation : nat
}.

(** [generation] is ghost state: the number of passes that got past the
    guards so far.  [objectCount] numbers the objects created. *)

Definition release (s : Store) (log : list Call) : Store :=
  mkStore (canvas s) false (editorElements s) (selectedElement s) (dom s)
          (trace s ++ log) (objectCount s) (generation s).

(** [selectedEditorElement?.fabricObject] *)
Definition activeObject (s : Store) : list Call :=
  match selectedElement s with
  | None => []
  | Some i =>
      match find (fun el => String.eqb (id el) i) (editorElements s) with
      | Some el =>
          match fabricObject el with
          | Some o => [SetActiveObject (oid o)]
          | None => []
          end
      | None => []
      end
  end.

Definition wordZIndexUpdates (s : Store) : list Call :=
  flat_map (fun el =>
              if String.eqb (type el) "text" then
                match wordObjects (properties el) with
                | Some _ => [UpdateWordZIndex (id el)]
                | None => []
                end
              else [])
           (editorElements s).

(** Lines 471-495: what follows the [await], then [catch] and [finally].
    The store methods called here are outside the two files;
    [finalThrows] says whether one of them throws. *)
Definition finalUpdates (finalThrows : bool) (s : Store) : Store :=
  if finalThrows then release s [ConsoleError]
  else release s (activeObject s ++ [RefreshAnimations; UpdateTimeTo]
                  ++ wordZIndexUpdates s ++ [RequestRenderAll]).

Inductive Outcome : Type :=
| Skipped
| Finished
| Failed (issued : list Load)
| Suspended (issued : list Load).

(** One call of [refreshElementsUtil], up to its [await] or its end.
    [Skipped]: returned at a guard.  [Finished]: ran to the end without
    waiting.  [Failed]: the loop threw; the loads issued before that are
    still on their way.  [Suspended]: waiting at
    [await Promise.all(imagePromises)]. *)
(** Lines 15-60: the handlers are detached, the canvas is cleared, the
    handler of [object:modified] is attached again, the frame fill is
    updated; no promise yet. *)
Definition initialPassState (s : Store) : PassState :=
  mkPassState [] (editorElements s) (dom s)
              (trace s ++ [CanvasOff "object:modified";
                           CanvasOff "object:added";
                           CanvasOn "object:modified";
                           UpdateCanvasFrameFill])
              (objectCount s) [].

(** The store, flag set, as the loop leaves it. *)
Definition afterLoop (s : Store) (st : PassState) : Store :=
  mkStore (Some (objects st)) true (elements st) (selectedElement s)
          (document st) (calls st) (nextOid st) (S (generation s)).

Definition refreshElementsUtil (now : N) (finalThrows : bool) (s : Store)
  : Store * Outcome :=
  match canvas s with
  | None => (s, Skipped)
  | Some _ =>
      if isRefreshingElements s then (s, Skipped)
      else
        let '(threw, st1) :=
          processElements now (S (generation s)) 0
                          (sortedElements (editorElements s))
                          (initialPassState s) in
        let s1 := afterLoop s st1 in
        if threw then (release s1 [ConsoleError], Failed (imagePromises st1))
        else
          match imagePromises st1 with
          | [] => (finalUpdates finalThrows s1, Finished)
          | _ :: _ => (s1, Suspended (imagePromises st1))
          end
  end.

(** The completion callback of a load (lines 188-216); the flag says whether
    it got as far as [resolve()].  With no canvas, [store.canvas.add]
    throws inside the callback. *)
Definition imageLoaded (l : Load) (s : Store) : Store * bool :=
  let element := loadElement l in
  let imageObjectDefault :=
    mkObj (objectCount s) (id element) UrlImage (loadUrl l)
          (x (placement element)) (y (placement element)) in
  let els := assignFabricObject (id element) imageObjectDefault (editorElements s) in
  match canvas s with
  | None =>
      (mkStore None (isRefreshingElements s) els (selectedElement s) (dom s)
               (trace s) (S (objectCount s)) (generation s), false)
  | Some objs =>
      (mkStore (Some (moveTo imageObjectDefault (loadIndex l)
                             (add imageObjectDefault objs)))
               (isRefreshingElements s) els (selectedElement s) (dom s)
               (trace s) (S (objectCount s)) (generation s), true)
  end.

(** *** The event loop: triggers, load completions, edits *)

(** [pending]: the loads on their way.  [awaiting]: the passes suspended at
    their [await], each with its number and the number of its promises not
    yet resolved. *)
Record Sys : Type := mkSys {
  store : Store;
  pending : list Load;
  awaiting : list (nat * nat)
}.

Inductive Event : Type :=
| Trigger (now : N) (finalThrows : bool)
| LoadCompletes (n : nat) (finalThrows : bool)
| SetElements (l : list Element).

Fixpoint removeNth {A : Type} (n : nat) (l : list A) : list A :=
  match l, n with
  | [], _ => []
  | _ :: t, O => t
  | a :: t, S n' => a :: removeNth n' t
  end.

Definition settle (pass : nat) (aw : list (nat * nat)) : list (nat * nat) :=
  map (fun p => if Nat.eqb (fst p) pass then (fst p, snd p - 1)%nat else p) aw.

Definition resolved (p : nat * nat) : bool := Nat.eqb (snd p) 0.

Definition step (sys : Sys) (ev : Event) : Sys :=
  match ev with
  | Trigger now finalThrows =>
      match refreshElementsUtil now finalThrows (store sys) with
      | (s', Skipped) | (s', Finished) => mkSys s' (pending sys) (awaiting sys)
      | (s', Failed issued) => mkSys s' (pending sys ++ issued) (awaiting sys)
      | (s', Suspended issued) =>
          mkSys s' (pending sys ++ issued)
                (awaiting sys ++ [(generation s', List.length issued)])
      end
  | LoadCompletes n finalThrows =>
      match nth_error (pending sys) n with
      | None => sys
      | Some l =>
          let '(s', ok) := imageLoaded l (store sys) in
          let aw := if ok then settle (issuedBy l) (awaiting sys)
                    else awaiting sys in
          mkSys (fold_left (fun s _ => finalUpdates finalThrows s)
                           (filter resolved aw) s')
                (removeNth n (pending sys))
                (filter (fun p => negb (resolved p)) aw)
      end
  | SetElements l =>
      let s := store sys in
      mkSys (mkStore (canvas s) (isRefreshingElements s) l (selectedElement s)
                     (dom s) (trace s) (objectCount s) (generation s))
            (pending sys) (awaiting sys)
  end.

Definition run (sys : Sys) (evs : list Event) : Sys := fold_left step evs sys.

(** The invariant of the event loop: either no pass is in flight and the
    flag is clear, or exactly one pass is suspended at its [await], with
    promises still to resolve, and the flag is set. *)
Definition guardInvariant (sys : Sys) : Prop :=
  match awaiting sys with
  | [] => isRefreshingElements (store sys) = false
  | [(_, k)] => isRefreshingElements (store sys) = true /\ (0 < k)%nat
  | _ :: _ :: _ => False
  end.

(** A store at rest: no pass in flight, nothing on its way. *)
Definition atRest (s : Store) : Sys := mkSys s [] [].

(** *** Elements used in the examples *)

Definition caption (i : string) (r : Z) (background : option string) : Element :=
  mkElement i "text" "" r (mkTimeFrame 0 1000) (mkPlacement 10 20)
            (mkProperties "" None false false None "Hello" background
                          (Some "#ffffff") (Some "#000000") 0 None)
            None.

Definition picture (i : string) (r : Z) (url : string) : Element :=
  mkElement i "imageUrl" "" r (mkTimeFrame 0 5000) (mkPlacement 0 0)
            (mkProperties "" (Some url) false false None "" None None None 0 None)
            None.

Definition clip (i : string) (r : Z) : Element :=
  mkElement i "video" "" r (mkTimeFrame 0 5000) (mkPlacement 0 0)
            (mkProperties (i ++ "-dom") None false false (Some "none") ""
                          None None None 0 None)
            None.

Definition twoCaptions : list Element :=
  [caption "t0" 0 (Some "#202020"); caption "t1" 1 (Some "#202020")].

Definition twoClips : list Element := [clip "v0" 0; clip "v1" 1].

Definition emptyStore (l : list Element) : Store :=
  mkStore (Some []) false l None [] [] 0 0.

Definition onePicture : list Element :=
  [picture "pic" 0 "https://cdn.example/p.png?x=1"].

(** A pass fails on the broken caption after it has issued the load of the
    picture; the caption is deleted; the next pass issues its own load. *)
Definition supersededPass : list Event :=
  [Trigger 17 false;
   SetElements [picture "pic" 0 "https://cdn.example/p.png"];
   Trigger 18 false].

(** Whether the scene holds a node made for the element [i]. *)
Definition materialized (i : string) (s : Store) : bool :=
  match canvas s with
  | None => false
  | Some objs => existsb (fun o => String.eqb (name o) i) objs
  end.

(** A caption whose [backgroundColor] is undefined, painted before a sound
    caption. *)
Definition brokenThenSound : list Element :=
  [caption "broken" 1 None; caption "sound" 0 (Some "#202020")].

(** A remote picture below a caption whose [backgroundColor] is
    undefined. *)
Definition pictureThenBroken : list Element :=
  [picture "pic" 0 "https://cdn.example/p.png"; caption "broken" 0 None].

End Refresh.

(* ================================================================== *)
(** ** Rows without overlap                                            *)
(* ================================================================== *)

Module Rows.
Import Timeline Drop.

(** Two elements that do not overlap in time. *)
Definition apart (a b : Element) : Prop :=
  (tfEnd a <= tfStart b \/ tfEnd b <= tfStart a)%Q.

(** A row with room for an image between [2000] and [7000]. *)
Definition roomyRow : Store :=
  mkStore [element "a" "imageUrl" 0 0 2000; element "b" "video" 0 7000 9000;
           element "c" "audio" 1 0 10000]
          10000 [] noGhost.

End Rows.

(* ================================================================== *)
(** ** Row height (TimelineRow.jsx, lines 79-105)                      *)
(* ================================================================== *)

Module RowHeight.

Definition heights : list (string * Z) :=
  [("text", 28); ("image", 40); ("imageUrl", 40); ("audio", 36);
   ("transition", 24); ("video", 44); ("animation", 26)]%Z.

(** The keys an object literal inherits from [Object.prototype]: looked up
    in [heights] they give a function or an object, not a number. *)
Definition inheritedKeys : list string :=
  ["constructor"; "toString"; "toLocaleString"; "valueOf"; "hasOwnProperty";
   "isPrototypeOf"; "propertyIsEnumerable"; "__proto__"; "__defineGetter__";
   "__defineSetter__"; "__lookupGetter__"; "__lookupSetter__"].

Fixpoint ownProperty (k : string) (table : list (string * Z)) : option Z :=
  match table with
  | [] => None
  | (k', v) :: t => if String.eqb k' k then Some v else ownProperty k t
  end.

(** [heights[rowType] || 32]; [None] when the result is not a number. *)
Definition defaultHeight (rowType : option string) : option Z :=
  match rowType with
  | None => Some 32%Z
  | Some t =>
      match ownProperty t heights with
      | Some h => if Z.eqb h 0 then Some 32%Z else Some h
      | None => if Compat.includes inheritedKeys t then None else Some 32%Z
      end
  end.

(** [Math.round]: to the nearest integer, halves upwards. *)
Definition mathRound (v : Q) : Z := Qfloor (v + (1 # 2)).

(** [Math.max(20, Math.min(200, Math.round(size.height)))] *)
Definition handleRowResize (height : Q) : Z :=
  Z.max 20 (Z.min 200 (mathRound height)).

End RowHeight.

(* ================================================================== *)
(** ** Hover and acceptance (TimelineRow.jsx, lines 140-511, 1284-1338) *)
(* ================================================================== *)

Module Hover.
Import Timeline Drop.






(** The pointer-to-time mapping of the gallery and file ghosts, in hover
    (lines 220-222 and twins) and in drop (lines 622-624 and twins) alike:
    [((clientX - rect.left) / rect.width) * maxTime]. *)
Definition galleryPosition (s : Store) (rect : Rect) (clientX : Q) : Q :=
  ((clientX - rectLeft rect) / width rect) * maxTime s.

(** The flag [isIncompatible] that [handleHover] hands to
    [store.updateGalleryGhost], by payload kind, as a truth value; [None]
    for a payload that is no gallery payload. *)
Definition hoverIsIncompatible (itemType : string) (overlays : list Element)
  : option bool :=
  let first := rowType overlays in
  let against k :=
    Compat.truthy first &&
    match first with
    | Some r => negb (Compat.areTypesCompatible r k)
    | None => false
    end in
  let isTextRow :=
    Compat.truthy first &&
    match first with
    | Some r => String.eqb r "text"
    | None => false
    end in
  if String.eqb itemType "gallery-image" || String.eqb itemType "scene-image"
  then Some (against "imageUrl")
  else if String.eqb itemType "gallery-video" || String.eqb itemType "scene-video"
  then Some (against "video")
  else if String.eqb itemType "animation-effect" then Some (against "video")
  else if String.eqb itemType "animation-drop" then Some isTextRow
  else if String.eqb itemType "gl-transition-drop" then Some isTextRow
  else None.

(** [canDrop] of the row's drop target (lines 1284-1338). *)
Definition canDrop (s : Store) (itemType itemId : string)
    (overlays : list Element) : bool :=
  let first := rowType overlays in
  let isEmpty := match overlays with [] => true | _ :: _ => false end in
  let compatible k :=
    match first with
    | Some r => Compat.areTypesCompatible r k
    | None => false
    end in
  if String.eqb itemType "gallery-image" || String.eqb itemType "scene-image"
  then isEmpty || compatible "imageUrl"
  else if String.eqb itemType "gallery-video" || String.eqb itemType "scene-video"
  then isEmpty || compatible "video"
  else if String.eqb itemType "animation-effect"
  then isEmpty || compatible "video" || compatible "imageUrl"
  else if String.eqb itemType "animation-drop"
  then isEmpty || compatible "imageUrl" || compatible "video" || compatible "audio"
  else if String.eqb itemType "gl-transition-drop"
  then isEmpty || compatible "imageUrl" || compatible "video" || compatible "audio"
  else
    match findById itemId (editorElements s) with
    | None => false
    | Some dragged =>
        existsb (fun el => String.eqb (id el) itemId) overlays
        || negb (Compat.truthy first)
        || compatible (type dragged)
    end.

(** The five payload kinds of the gallery, with the two scene twins. *)
Definition galleryPayloads : list string :=
  ["gallery-image"; "scene-image"; "gallery-video"; "scene-video";
   "animation-effect"; "animation-drop"; "gl-transition-drop"].

(** *** Animations created by a drop (lines 1024-1059, 1113-1132) *)

Record NewAnimation : Type := mkNewAnimation {
  animationDuration : Q;
  absoluteStart : Q;
  absoluteEnd : Q;
  animationRow : Z
}.

(** [actualProperties.duration || animationData.duration || 600] *)
Definition droppedDuration (propertiesDuration animationDuration : option Q) : Q :=
  orDefault propertiesDuration (orDefault animationDuration 600).

(** The animation the callback of the gallery ghost creates at
    [(startTime, targetRow)]. *)
Definition newAnimation (propertiesDuration animationDuration : option Q)
    (startTime : Q) (targetRow : Z) : NewAnimation :=
  mkNewAnimation (droppedDuration propertiesDuration animationDuration)
                 startTime
                 (startTime + droppedDuration propertiesDuration animationDuration)
                 targetRow.

(** *** Transitions created by a drop (lines 1190-1264) *)

(** The entry that the callback of the gallery ghost pushes into
    [store.animations] for a gl-transition-drop; the timeline element pushed
    into [store.editorElements] has the same interval and row.
    [glTransitionData.duration] is used as it is: with an [undefined]
    duration, [startTime + undefined] is [NaN], here [None]. *)
Record NewGLTransition : Type := mkNewGLTransition {
  glDuration : option Q;
  glStartTime : Q;
  glEndTime : option Q;
  glRow : Z
}.

Definition newGLTransition (duration : option Q) (startTime : Q) (targetRow : Z)
  : NewGLTransition :=
  mkNewGLTransition duration startTime (option_map (Qplus startTime) duration)
                    targetRow.

(** *** Dropped files (lines 1345-1535) *)






(** [a || ...]: [undefined] and [0] are falsy. *)
Definition falsy (a : option Q) : Prop :=
  match a with
  | None => True
  | Some v => (v == 0)%Q
  end.


End Hover.

(* ================================================================== *)
(** ** Dragging a row (TimelineRow.jsx, lines 1687-1809)               *)
(* ================================================================== *)

Module RowDrag.

Record VRect : Type := mkVRect { rectTop : Q; rectBottom : Q }.

Inductive InsertPosition : Type := Above | Below.

(** [store.updateRowDragOver(null)], which stands for
    [store.updateRowDragOver(null, null)] of line 1749 too, and
    [store.updateRowDragOver(targetRowIndex, insertPosition)]. *)
Inductive DragOver : Type :=
| NoTarget
| Target (targetRowIndex : Z) (insertPosition : option InsertPosition).

Inductive DragEnd : Type :=
| FinishRowDrag (targetRowIndex : Z)
| CancelRowDrag.

(** [origin]: the rectangle of the wrapper of the dragged row, when there is
    one.  [hovered]: the row wrapper under the pointer, with the index its
    attribute parses to, when there is one and the index is a number. *)
Definition handleMouseMove (rowIndex : Z) (origin : option VRect)
    (hovered : option (Z * VRect)) (clientY : Q) : option DragOver :=
  match origin with
  | None => None
  | Some originRect =>
      match hovered with
      | None => Some NoTarget
      | Some (candidateIndex, candidateRect) =>
          if Z.eqb candidateIndex rowIndex then Some NoTarget
          else
            let '(targetRowIndex, insertPosition) :=
              if Z.ltb rowIndex candidateIndex then
                let boundary := (rectBottom originRect + rectTop candidateRect) / 2 in
                if Qle_bool boundary clientY then (candidateIndex, Some Below)
                else (rowIndex, None)
              else
                let boundary := (rectBottom candidateRect + rectTop originRect) / 2 in
                if Qle_bool clientY boundary then (candidateIndex, Some Above)
                else (rowIndex, None) in
            if negb (Z.eqb targetRowIndex rowIndex)
            then Some (Target targetRowIndex insertPosition)
            else Some NoTarget
      end
  end.

Definition handleMouseUp (rowIndex : Z) (origin : option VRect)
    (hovered : option (Z * VRect)) (clientY : Q) : DragEnd :=
  let targetRowIndex :=
    match origin with
    | None => rowIndex
    | Some originRect =>
        match hovered with
        | None => rowIndex
        | Some (candidateIndex, candidateRect) =>
            if Z.eqb candidateIndex rowIndex then rowIndex
            else if Z.ltb rowIndex candidateIndex then
              let boundary := (rectBottom originRect + rectTop candidateRect) / 2 in
              if Qle_bool boundary clientY then candidateIndex else rowIndex
            else
              let boundary := (rectBottom candidateRect + rectTop originRect) / 2 in
              if Qle_bool clientY boundary then candidateIndex else rowIndex
        end
    end in
  if negb (Z.eqb targetRowIndex rowIndex) then FinishRowDrag targetRowIndex
  else CancelRowDrag.

End RowDrag.

(* ================================================================== *)
(** ** Gallery video without ghost (TimelineRow.jsx, lines 737-799)    *)
(* ================================================================== *)

Module VideoFallback.
Import Timeline Drop.

(** [store.handleVideoUploadFromUrl({url, title, key, duration, row})] and
    [store.shiftRowsDown(fromRow)]; of the first only the row is kept.  The
    call has no [startTime]. *)
Inductive VideoCall : Type :=
| VideoFromUrl (targetRow : Z)
| VideoShiftRowsDown (fromRow : Z).

(** The copy of the scan with the literal [10000]; the start it finds is
    assigned and not read again. *)
Definition dropGalleryVideoFallback (s : Store) (rowIndex : Z) : list VideoCall :=
  let '(startTime, hasSpace) := findSpace s rowIndex 10000 in
  if hasSpace then [VideoFromUrl rowIndex]
  else [VideoShiftRowsDown (rowIndex + 1); VideoFromUrl (rowIndex + 1)].

(** A timeline of 30 s with one clip in the middle of row 0. *)
Definition longRow : Store :=
  mkStore [element "a" "video" 0 12000 15000] 30000 [] noGhost.

End VideoFallback.

(* ================================================================== *)
(** ** Runs of the refresh pass                                        *)
(* ================================================================== *)

Module Runs.
Import Timeline Refresh.

(** No trigger of the run ends in the [catch] block of the loop. *)
Fixpoint noFailure (sys : Sys) (evs : list Event) : Prop :=
  match evs with
  | [] => True
  | ev :: rest =>
      match ev with
      | Trigger now finalThrows =>
          match snd (refreshElementsUtil now finalThrows (store sys)) with
          | Failed _ => False
          | _ => True
          end
      | _ => True
      end /\ noFailure (step sys ev) rest
  end.

(** Every load on its way was issued by the pass in flight, which waits for
    exactly these loads. *)
Definition ownLoads (sys : Sys) : Prop :=
  canvas (store sys) <> None /\
  Forall (fun l => issuedBy l = generation (store sys)) (pending sys) /\
  match awaiting sys with
  | [] => pending sys = [] /\ isRefreshingElements (store sys) = false
  | [(g, k)] =>
      g = generation (store sys) /\ k = List.length (pending sys) /\
      (0 < k)%nat /\ isRefreshingElements (store sys) = true
  | _ :: _ :: _ => False
  end.

(** No node of the scene has the identity the next new node will get. *)
Definition freshOid (st : PassState) : Prop :=
  Forall (fun o => oid o <> nextOid st) (objects st).

(** A pass state with two nodes in the scene and the document node of the
    clip ["v"]. *)
Definition videoState : PassState :=
  mkPassState [mkObj 0 "a" CoverImage "a-dom" 0 0; mkObj 1 "b" Textbox "B" 0 0]
              [clip "v" 0] [mkDomNode "v-dom" VideoTag] [] 2 [].

Definition tune (i : string) : Element :=
  mkElement i "audio" "" 3 (mkTimeFrame 0 30000) (mkPlacement 0 0)
            (mkProperties (i ++ "-dom") (Some "https://cdn.example/t.mp3")
                          false false None "" None None None 0 None)
            None.

(** A pass over two remote pictures, a second trigger while it waits, and
    the completion of both loads. *)
Definition twoPictures : list Element :=
  [picture "p1" 1 "https://cdn.example/1.png";
   picture "p2" 0 "https://cdn.example/2.png"].

Definition quietRun : list Event :=
  [Trigger 17 false; Trigger 18 false; LoadCompletes 1 false].

End Runs.

(* ================================================================== *)
(** ** Theorems                                                        *)
(* ================================================================== *)

Section CompatibilityFacts.
Import Compat.

Lemma areTypesCompatible_sym_all (a b : string) :
  areTypesCompatible a b = areTypesCompatible b a.
Proof.
  unfold areTypesCompatible.
  rewrite (orb_comm (a =? "text") (b =? "text")).
  rewrite (andb_comm (a =? "text") (b =? "text")).
  rewrite (orb_comm (a =? "animation") (b =? "animation")).
  rewrite (andb_comm (includes mixableTypes a)).
  reflexivity.
Qed.

(** C1. Over the declared kind set the compatibility function is symmetric
    and agrees entry by entry with the policy table (text only with text;
    animation with everything except text; audio, video, imageUrl and image
    mutually compatible); in particular text/text is compatible, text/video
    is not, animation/audio is. *)
Theorem C1_compatible_symmetric_matches_table :
  (forall a b : Kind,
      areTypesCompatible (kindName a) (kindName b)
      = areTypesCompatible (kindName b) (kindName a)) /\
  (forall a b : Kind,
      areTypesCompatible (kindName a) (kindName b) = policy a b) /\
  areTypesCompatible "text" "text" = true /\
  areTypesCompatible "text" "video" = false /\
  areTypesCompatible "animation" "audio" = true.
Proof.
  split; [intros a b; apply areTypesCompatible_sym_all|].
  split; [intros [] []; reflexivity|].
  repeat split.
Qed.

End CompatibilityFacts.

Section UnknownKinds.
Import Compat Timeline Drop.

Lemma outside_declared (k : string) :
  ~ In k declaredKinds ->
  (k =? "text") = false /\ (k =? "animation") = false /\
  includes mixableTypes k = false.
Proof.
  intros H. cbn in H.
  assert (Hne : forall s, In s declaredKinds -> (k =? s) = false).
  { intros s Hs. apply String.eqb_neq. intros ->. apply H. exact Hs. }
  repeat split.
  - apply Hne; cbn; tauto.
  - apply Hne; cbn; tauto.
  - unfold includes, mixableTypes. cbn.
    rewrite !Hne by (cbn; tauto). reflexivity.
Qed.




End UnknownKinds.

Section GhostDefaults.
Import Timeline GhostStart.





End GhostDefaults.

(* ------------------------------------------------------------------ *)
(** *** The stable sort                                                *)
(* ------------------------------------------------------------------ *)

Section SortFacts.
Import Timeline.
Context {A : Type} (gt : A -> A -> bool).

Hypothesis le_trans :
  forall a b c, notAfter gt a b -> notAfter gt b c -> notAfter gt a c.
Hypothesis gt_le : forall a b, gt a b = true -> notAfter gt b a.

Lemma insertSorted_perm (a : A) (l : list A) :
  Permutation (insertSorted gt a l) (a :: l).
Proof.
  induction l as [|b t IH]; cbn; [reflexivity|].
  destruct (gt a b); [|reflexivity].
  rewrite IH. apply perm_swap.
Qed.

Lemma jsSort_perm (l : list A) : Permutation (jsSort gt l) l.
Proof.
  induction l as [|a t IH]; cbn; [reflexivity|].
  rewrite insertSorted_perm. now constructor.
Qed.

Lemma insertSorted_sorted (a : A) (l : list A) :
  StronglySorted (notAfter gt) l ->
  StronglySorted (notAfter gt) (insertSorted gt a l).
Proof.
  induction 1 as [|b t Hs IH Hb]; cbn.
  - repeat constructor.
  - destruct (gt a b) eqn:E.
    + constructor; [exact IH|].
      eapply Permutation_Forall; [symmetry; apply insertSorted_perm|].
      constructor; [apply gt_le, E | exact Hb].
    + constructor; [constructor; assumption|].
      constructor; [exact E|].
      eapply Forall_impl; [|exact Hb]. intros c Hc. eapply le_trans; eassumption.
Qed.

Lemma jsSort_sorted (l : list A) : StronglySorted (notAfter gt) (jsSort gt l).
Proof.
  induction l as [|a t IH]; cbn; [constructor|].
  now apply insertSorted_sorted.
Qed.

(** Stability: the elements of one class (a predicate that the order cannot
    tell apart from [a]) come out in the order they came in. *)
Lemma insertSorted_filter (p : A -> bool) (a : A) (l : list A) :
  (forall b, p a = true -> p b = true -> gt a b = false) ->
  filter p (insertSorted gt a l) = filter p (a :: l).
Proof.
  intros Hp. induction l as [|b t IH]; [reflexivity|].
  cbn in *. destruct (gt a b) eqn:E; [|reflexivity].
  cbn. rewrite IH.
  destruct (p a) eqn:Ea; [|reflexivity].
  destruct (p b) eqn:Eb; [|reflexivity].
  rewrite (Hp b eq_refl Eb) in E. discriminate E.
Qed.

Lemma jsSort_stable (p : A -> bool) (l : list A) :
  (forall a b, p a = true -> p b = true -> gt a b = false) ->
  filter p (jsSort gt l) = filter p l.
Proof.
  intros Hp. induction l as [|a t IH]; [reflexivity|].
  cbn [jsSort fold_right]. rewrite insertSorted_filter.
  - cbn. fold (jsSort gt t). rewrite IH. reflexivity.
  - intros b. apply Hp.
Qed.

End SortFacts.

(* ------------------------------------------------------------------ *)
(** *** Gap insertion                                                  *)
(* ------------------------------------------------------------------ *)

Section GapInsertion.
Import Timeline Drop VideoFallback.

Lemma gapLoop_suffix (maxT minGap : Q) (suf pre : list Element) (c : Q) :
  c = (if Nat.eqb (List.length pre) 0 then 0
       else nth (List.length pre - 1) (map tfEnd (pre ++ suf)) 0) ->
  gapLoop (pre ++ suf) maxT minGap (S (List.length suf)) (List.length pre)
  = option_map fst
      (find (wideEnough minGap)
            (combine (c :: map tfEnd suf) (map tfStart suf ++ [maxT]))).
Proof.
  revert pre c. induction suf as [|e suf IH]; intros pre c Hc.
  - cbn [gapLoop List.length]. rewrite <- Hc.
    rewrite app_nil_r, Nat.eqb_refl. cbn. unfold wideEnough. cbn.
    destruct (Qle_bool minGap (maxT - c)); reflexivity.
  - cbn [gapLoop]. rewrite <- Hc.
    replace (Nat.eqb (List.length pre) (List.length (pre ++ e :: suf)%list)) with false.
    2:{ symmetry. apply Nat.eqb_neq. rewrite length_app. cbn. lia. }
    rewrite map_app, app_nth2 by (rewrite length_map; lia).
    rewrite length_map, Nat.sub_diag. cbn [map nth combine app find].
    unfold wideEnough at 1. cbn [fst snd].
    destruct (Qle_bool minGap (tfStart e - c)); [reflexivity|].
    specialize (IH (pre ++ [e])%list (tfEnd e)).
    rewrite <- app_assoc in IH. cbn [app] in IH.
    rewrite length_app in IH. cbn [List.length] in IH.
    rewrite Nat.add_1_r in IH. apply IH.
    cbn [Nat.eqb Nat.sub]. rewrite Nat.sub_0_r.
    rewrite map_app, app_nth2 by (rewrite length_map; lia).
    rewrite length_map, Nat.sub_diag. reflexivity.
Qed.

Lemma gapLoop_firstGap (sorted : list Element) (maxT minGap : Q) :
  gapLoop sorted maxT minGap (S (List.length sorted)) 0
  = firstGap minGap sorted maxT.
Proof.
  exact (gapLoop_suffix maxT minGap sorted [] 0 eq_refl).
Qed.

Lemma byStart_le (a b : Element) :
  notAfter byStart a b <-> (tfStart a <= tfStart b)%Q.
Proof.
  unfold notAfter, byStart. rewrite negb_false_iff, Qle_bool_iff. split; lra.
Qed.

Lemma byStart_sorted (l : list Element) :
  StronglySorted (fun a b => tfStart a <= tfStart b)%Q (jsSort byStart l).
Proof.
  assert (H : StronglySorted (notAfter byStart) (jsSort byStart l)).
  { apply jsSort_sorted.
    - intros a b c. rewrite !byStart_le. lra.
    - intros a b E. apply byStart_le. unfold byStart in E.
      apply negb_true_iff in E.
      destruct (Qlt_le_dec (tfStart b) (tfStart a)) as [Hlt | Hle]; [lra|].
      assert (Hb : Qle_bool (tfStart a - tfStart b) 0 = true)
        by (apply Qle_bool_iff; lra).
      congruence. }
  induction H as [|a t Hs IH Ha]; constructor; [exact IH|].
  eapply Forall_impl; [|exact Ha]. intros b. apply byStart_le.
Qed.

Lemma shiftRowsDown_rows (s : Store) (n : Z) :
  Forall2 (fun e e' => id e' = id e /\ timeFrame e' = timeFrame e /\
                       row e' = if Z.ltb (row e) n then row e else (row e + 1)%Z)
          (editorElements s) (editorElements (shiftRowsDown s n)).
Proof.
  unfold shiftRowsDown. cbn. induction (editorElements s) as [|e t IH]; cbn.
  - constructor.
  - constructor; [|exact IH].
    rewrite Z.leb_antisym. destruct (Z.ltb (row e) n); cbn; auto.
Qed.

(** C4 (as stated) fails on the example.  A gallery video whose own
    duration is 1000 ms is an insert of default duration 1000: that is the
    duration its ghost is started with.  Dropped without a ghost on the row
    with elements at [0,2000] and [5000,7000] and [maxTime = 10000], it is
    not placed at start 2000, where the first gap of 1000 ms begins: the
    scan asks for the fixed 10000 ms of a video, which no gap offers, so the
    rows below are shifted and the video goes to row 1. *)
Lemma C4_example_counterexample :
  GhostStart.startGalleryGhostDrag
    (GhostStart.mkDraggedItem "gallery-video" "v1" None (Some (Some 1000%Q))
                              None None None)
  = Some ("video", 1000%Q) /\
  firstGap 1000 (jsSort byStart (rowElementsOf exampleRow 0)) 10000
  = Some 2000%Q /\
  dropGalleryVideoFallback exampleRow 0
  = [VideoShiftRowsDown 1; VideoFromUrl 1] /\
  dropGalleryVideoFallback exampleRow 0 <> [VideoFromUrl 0].
Proof.
  split; [reflexivity|]. split; [reflexivity|]. split; [reflexivity|].
  intros H. discriminate H.
Qed.

(** C4 (amended). A gallery image dropped without a ghost: an empty target
    row receives it at time 0.  Otherwise the row's elements are scanned
    sorted by start time, and the image is placed at the start of the first
    gap (the region before the first element and the one after the last
    included) that is at least 5000 ms wide, the fixed default of an image;
    when no gap is that wide, all rows from [targetRow + 1] on are shifted
    down by one and the image is placed at time 0 of row [targetRow + 1],
    which the shift has emptied.  A gallery video dropped without a ghost is
    scanned for in the same way with the fixed width of 10000 ms, whatever
    its own duration: it stays on the target row when the row is empty or
    has such a gap, and goes to row [targetRow + 1] after the shift
    otherwise.  On the row with elements at [0,2000] and [5000,7000] and
    [maxTime = 10000] no gap is wide enough for either, and the asset goes
    to the next row (a scan for 1000 ms would have stopped at 2000; the
    handler has no such scan). *)
Theorem C4_gap_insertion (s : Store) (rowIndex : Z) :
  let rowElements := rowElementsOf s rowIndex in
  let sorted := jsSort byStart rowElements in
  Permutation sorted rowElements /\
  StronglySorted (fun a b => tfStart a <= tfStart b)%Q sorted /\
  dropGalleryImageFallback s rowIndex
  = match rowElements, firstGap 5000 sorted (maxTime s) with
    | [], _ => [AddImageLocal rowIndex 0]
    | _ :: _, Some t => [AddImageLocal rowIndex t]
    | _ :: _, None =>
        [ShiftRowsDown (rowIndex + 1); AddImageLocal (rowIndex + 1) 0]
    end /\
  dropGalleryVideoFallback s rowIndex
  = match rowElements, firstGap 10000 sorted (maxTime s) with
    | [], _ => [VideoFromUrl rowIndex]
    | _ :: _, Some _ => [VideoFromUrl rowIndex]
    | _ :: _, None =>
        [VideoShiftRowsDown (rowIndex + 1); VideoFromUrl (rowIndex + 1)]
    end /\
  Forall2 (fun e e' => id e' = id e /\ timeFrame e' = timeFrame e /\
                       row e' = if Z.ltb (row e) (rowIndex + 1) then row e
                                else (row e + 1)%Z)
          (editorElements s)
          (editorElements (shiftRowsDown s (rowIndex + 1))) /\
  rowElementsOf (shiftRowsDown s (rowIndex + 1)) (rowIndex + 1) = [] /\
  firstGap 5000 (jsSort byStart (rowElementsOf exampleRow 0)) 10000 = None /\
  firstGap 10000 (jsSort byStart (rowElementsOf exampleRow 0)) 10000 = None /\
  firstGap 1000 (jsSort byStart (rowElementsOf exampleRow 0)) 10000
  = Some 2000.
Proof.
  intros rowElements sorted.
  split; [apply jsSort_perm|].
  split; [apply byStart_sorted|].
  split.
  { unfold dropGalleryImageFallback, findSpace.
    fold (rowElementsOf s rowIndex). fold rowElements.
    destruct rowElements as [|e t] eqn:E; [reflexivity|].
    fold sorted. rewrite gapLoop_firstGap.
    destruct (firstGap 5000 sorted (maxTime s)); reflexivity. }
  split.
  { unfold dropGalleryVideoFallback, findSpace.
    fold (rowElementsOf s rowIndex). fold rowElements.
    destruct rowElements as [|e t] eqn:E; [reflexivity|].
    fold sorted. rewrite gapLoop_firstGap.
    destruct (firstGap 10000 sorted (maxTime s)); reflexivity. }
  split; [apply shiftRowsDown_rows|].
  split; [|split; [|split]; reflexivity].
  unfold rowElementsOf, shiftRowsDown. cbn.
  induction (editorElements s) as [|e t IH]; [reflexivity|].
  cbn. destruct (Z.leb (rowIndex + 1) (row e)) eqn:E; cbn.
  - replace (Z.eqb (row e + 1) (rowIndex + 1)) with false; [exact IH|].
    symmetry. apply Z.eqb_neq. apply Z.leb_le in E. lia.
  - replace (Z.eqb (row e) (rowIndex + 1)) with false; [exact IH|].
    symmetry. apply Z.eqb_neq. apply Z.leb_gt in E. lia.
Qed.

End GapInsertion.

(* ------------------------------------------------------------------ *)
(** *** Committing a single move                                       *)
(* ------------------------------------------------------------------ *)

Section SingleMove.
Import Timeline Drop.









End SingleMove.

(* ------------------------------------------------------------------ *)
(** *** Committing a multi-element move                                *)
(* ------------------------------------------------------------------ *)

Section MultiMove.
Import Timeline Drop.
























End MultiMove.

(* ------------------------------------------------------------------ *)
(** *** Paint order                                                    *)
(* ------------------------------------------------------------------ *)

Section PaintOrder.
Import Timeline Refresh.

Lemma gtPaint_spec (a b : Element) : notAfter gtPaint a b <-> paintBefore a b.
Proof.
  unfold notAfter, gtPaint, comparePaint, paintBefore, isText.
  rewrite Z.ltb_ge.
  destruct (type a =? "text"), (type b =? "text"); cbn; split;
    try (intros; split; intros; (congruence || lia));
    try (intros [H1 H2]; first [ lia | specialize (H1 eq_refl); congruence
                               | specialize (H2 eq_refl); lia ]).
Qed.

Lemma paintBefore_trans (a b c : Element) :
  paintBefore a b -> paintBefore b c -> paintBefore a c.
Proof.
  unfold paintBefore. intros [H1 H2] [H3 H4].
  destruct (isText a), (isText b), (isText c); split; intros;
    try congruence; try lia;
    try (specialize (H1 eq_refl); congruence);
    try (specialize (H3 eq_refl); congruence);
    try (specialize (H2 eq_refl); specialize (H4 eq_refl); lia).
Qed.

Lemma paintBefore_total (a b : Element) :
  gtPaint a b = true -> paintBefore b a.
Proof.
  unfold gtPaint, comparePaint, paintBefore, isText. rewrite Z.ltb_lt.
  destruct (type a =? "text"), (type b =? "text"); cbn; intros H; split;
    intros; try congruence; lia.
Qed.

Lemma sortedElements_sorted (l : list Element) :
  StronglySorted paintBefore (sortedElements l).
Proof.
  assert (H : StronglySorted (notAfter gtPaint) (sortedElements l)).
  { apply jsSort_sorted.
    - intros a b c. rewrite !gtPaint_spec. apply paintBefore_trans.
    - intros a b E. apply gtPaint_spec. now apply paintBefore_total. }
  induction H as [|a t Hs IH Ha]; constructor; [exact IH|].
  eapply Forall_impl; [|exact Ha]. intros b. apply gtPaint_spec.
Qed.

Lemma sorted_text_last (l : list Element) :
  StronglySorted paintBefore l ->
  l = (filter (fun e => negb (isText e)) l ++ filter isText l)%list.
Proof.
  induction 1 as [|a t Hs IH Ha]; [reflexivity|].
  cbn. destruct (isText a) eqn:E; cbn.
  - assert (Hall : Forall (fun b => isText b = true) t).
    { eapply Forall_impl; [|exact Ha]. intros b [Hb _]. now apply Hb. }
    replace (filter (fun e => negb (isText e)) t) with (@nil Element).
    + cbn. f_equal. clear -Hall. induction Hall as [|b t Hb _ IH]; [reflexivity|].
      cbn. rewrite Hb. now f_equal.
    + clear -Hall. induction Hall as [|b t Hb _ IH]; [reflexivity|].
      cbn. rewrite Hb. exact IH.
  - f_equal. exact IH.
Qed.

(** C7 (as stated) fails in two places.  Two captions on rows 0 and 1 come
    out in the order row 1, row 0: the text group does not keep its input
    order.  Two clips on rows 0 and 1 come out with the clip of row 1 at
    paint index 0 and the clip of row 0 at index 1: the lower row is painted
    on top of the higher one. *)
Lemma C7_paint_order_counterexample :
  filter isText (sortedElements twoCaptions) <> filter isText twoCaptions /\
  map id (sortedElements twoCaptions) = ["t1"; "t0"] /\
  paintIndex "v1" (sortedElements twoClips) = Some 0%nat /\
  paintIndex "v0" (sortedElements twoClips) = Some 1%nat.
Proof.
  split; [|repeat split]. intros H. discriminate H.
Qed.

(** C7 (amended). The pass sorts the elements so that every text element
    comes after every non-text element; inside the text group and inside the
    non-text group alike the elements are in descending order of row index;
    and elements of the same group and the same row keep their relative
    order from the input list.  Nothing is added or lost. *)
Theorem C7_paint_order (l : list Element) :
  Permutation (sortedElements l) l /\
  StronglySorted paintBefore (sortedElements l) /\
  sortedElements l
  = (filter (fun e => negb (isText e)) (sortedElements l)
     ++ filter isText (sortedElements l))%list /\
  (forall (t : bool) (r : Z),
      filter (inClass t r) (sortedElements l) = filter (inClass t r) l).
Proof.
  split; [apply jsSort_perm|].
  split; [apply sortedElements_sorted|].
  split; [apply sorted_text_last, sortedElements_sorted|].
  intros t r. apply jsSort_stable.
  intros a b Ha Hb. unfold inClass in *.
  apply andb_true_iff in Ha, Hb. destruct Ha as [Ta Ra], Hb as [Tb Rb].
  apply Bool.eqb_prop in Ta, Tb. apply Z.eqb_eq in Ra, Rb.
  apply (proj2 (gtPaint_spec a b)). unfold paintBefore.
  split; intros; [congruence | lia].
Qed.

End PaintOrder.

(* ------------------------------------------------------------------ *)
(** *** Errors during a pass                                           *)
(* ------------------------------------------------------------------ *)

Section PassErrors.
Import Timeline Refresh.

Lemma processElements_app (now : N) (pass : nat) (l1 l2 : list Element) :
  forall (index : nat) (st st1 : PassState),
    processElements now pass index l1 st = (false, st1) ->
    processElements now pass index (l1 ++ l2)%list st
    = processElements now pass (index + List.length l1) l2 st1.
Proof.
  induction l1 as [|e t IH]; intros index st st1 H; cbn in *.
  - injection H as <-. now rewrite Nat.add_0_r.
  - destruct (processElement now pass index e st) as [[[]| |] st'];
      try discriminate H; rewrite (IH _ _ _ H); f_equal; lia.
Qed.

(** C6 (as stated) fails: in the pass over a caption whose
    [backgroundColor] is undefined followed, in paint order, by a sound
    caption, the error of the first is caught and logged, and the second is
    not materialized, although a pass over the second alone puts it into the
    scene. *)
Lemma C6_isolation_counterexample :
  map id (sortedElements brokenThenSound) = ["broken"; "sound"] /\
  (let s' := fst (refreshElementsUtil 17 false (emptyStore brokenThenSound)) in
   materialized "sound" s' = false /\ canvas s' = Some [] /\
   last (trace s') RequestRenderAll = ConsoleError) /\
  materialized "sound"
    (fst (refreshElementsUtil 17 false
            (emptyStore [caption "sound" 0 (Some "#202020")]))) = true.
Proof.
  repeat split.
Qed.

(** C6 (amended). An error thrown while an element is materialized ends the
    loop of the pass: the state is the one the elements before it and the
    failed element left, whatever elements follow, so none of these is
    materialized in that pass.  The error is caught once, for the whole
    pass, and logged; the in-flight flag is released. *)
Theorem C6_error_aborts_pass :
  (forall (now : N) (pass index : nat) (l1 l2 : list Element) (bad : Element)
          (st st1 st2 : PassState),
      processElements now pass index l1 st = (false, st1) ->
      processElement now pass (index + List.length l1) bad st1 = (Thrown, st2) ->
      processElements now pass index (l1 ++ bad :: l2)%list st = (true, st2)) /\
  (forall (now : N) (finalThrows : bool) (s : Store) (objs : list Obj)
          (st1 : PassState),
      canvas s = Some objs ->
      isRefreshingElements s = false ->
      processElements now (S (generation s)) 0
                      (sortedElements (editorElements s)) (initialPassState s)
      = (true, st1) ->
      exists s',
        refreshElementsUtil now finalThrows s = (s', Failed (imagePromises st1)) /\
        canvas s' = Some (objects st1) /\
        editorElements s' = elements st1 /\
        trace s' = (calls st1 ++ [ConsoleError])%list /\
        isRefreshingElements s' = false).
Proof.
  split.
  - intros now pass index l1 l2 bad st st1 st2 H1 H2.
    rewrite (processElements_app _ _ _ _ _ _ _ H1). cbn. now rewrite H2.
  - intros now ft s objs st1 Hc Hf Hl.
    unfold refreshElementsUtil. rewrite Hc, Hf, Hl.
    eexists. split; [reflexivity|]. repeat split.
Qed.

Lemma C6_error_aborts_pass_witness :
  (exists st2,
      processElements 17 1 0
        ([] ++ caption "broken" 1 None :: [caption "sound" 0 (Some "#202020")])%list
        (initialPassState (emptyStore brokenThenSound))
      = (true, st2) /\ objects st2 = []) /\
  exists s',
    refreshElementsUtil 17 false (emptyStore brokenThenSound)
    = (s', Failed []) /\
    canvas s' = Some [] /\ isRefreshingElements s' = false.
Proof.
  split.
  - eexists. split.
    + apply (proj1 C6_error_aborts_pass 17%N 1%nat 0%nat []
               [caption "sound" 0 (Some "#202020")] (caption "broken" 1 None)
               (initialPassState (emptyStore brokenThenSound))
               (initialPassState (emptyStore brokenThenSound)));
        reflexivity.
    + reflexivity.
  - destruct (proj2 C6_error_aborts_pass 17%N false
                (emptyStore brokenThenSound) [] _ eq_refl eq_refl eq_refl)
      as (s' & Hr & Hc & _ & _ & Hf).
    exists s'. repeat split; assumption.
Defined.

End PassErrors.

(* ------------------------------------------------------------------ *)
(** *** The in-flight flag                                             *)
(* ------------------------------------------------------------------ *)

Section ReentrancyGuard.
Import Timeline Refresh.

Lemma refresh_guarded (now : N) (finalThrows : bool) (s : Store) :
  isRefreshingElements s = true ->
  refreshElementsUtil now finalThrows s = (s, Skipped).
Proof.
  intros H. unfold refreshElementsUtil. rewrite H. now destruct (canvas s).
Qed.

Lemma finalUpdates_released (finalThrows : bool) (s : Store) :
  isRefreshingElements (finalUpdates finalThrows s) = false.
Proof.
  unfold finalUpdates. now destruct finalThrows.
Qed.

Lemma imageLoaded_flag (l : Load) (s : Store) :
  isRefreshingElements (fst (imageLoaded l s)) = isRefreshingElements s.
Proof.
  unfold imageLoaded. now destruct (canvas s).
Qed.

(** What a call that finds the flag clear leaves behind. *)
Lemma refresh_outcome (now : N) (finalThrows : bool) (s s' : Store) (o : Outcome) :
  isRefreshingElements s = false ->
  refreshElementsUtil now finalThrows s = (s', o) ->
  match o with
  | Skipped => s' = s
  | Finished | Failed _ => isRefreshingElements s' = false
  | Suspended issued =>
      isRefreshingElements s' = true /\ (0 < List.length issued)%nat
  end.
Proof.
  intros Hf. unfold refreshElementsUtil. rewrite Hf.
  destruct (canvas s); [|now intros [= <- <-]].
  destruct (processElements _ _ _ _ _) as [threw st1].
  destruct threw; [now intros [= <- <-]|].
  destruct (imagePromises st1) eqn:E.
  - intros [= <- <-]. apply finalUpdates_released.
  - intros [= <- <-]. cbn. split; [reflexivity | lia].
Qed.

Lemma step_invariant (sys : Sys) (ev : Event) :
  guardInvariant sys -> guardInvariant (step sys ev).
Proof.
  unfold guardInvariant. intros Inv. destruct ev as [now ft | n ft | l].
  - cbn [step].
    destruct (isRefreshingElements (store sys)) eqn:Ef.
    + rewrite (refresh_guarded now ft _ Ef). cbn. rewrite Ef. exact Inv.
    + destruct (awaiting sys) as [|[g k] [|p t]] eqn:Ea; try contradiction;
        [|destruct Inv; discriminate].
      destruct (refreshElementsUtil now ft (store sys)) as [s' o] eqn:Er.
      pose proof (refresh_outcome _ _ _ _ _ Ef Er) as Ho.
      destruct o; cbn; rewrite ?Ea; cbn; try assumption.
      subst s'. exact Ef.
  - cbn [step].
    destruct (nth_error (pending sys) n) as [l|]; [|exact Inv].
    pose proof (imageLoaded_flag l (store sys)) as Hfl.
    destruct (imageLoaded l (store sys)) as [s' ok]. cbn in Hfl. cbn.
    destruct (awaiting sys) as [|[g k] [|p t]] eqn:Ea; try contradiction.
    + destruct ok; cbn; congruence.
    + destruct Inv as [Hf Hk].
      assert (Hcase : forall k', (k' = k \/ k' = k - 1)%nat ->
        match filter (fun p => negb (resolved p)) [(g, k')] with
        | [] => isRefreshingElements
                  (fold_left (fun s _ => finalUpdates ft s)
                             (filter resolved [(g, k')]) s') = false
        | [(_, k0)] =>
            isRefreshingElements
              (fold_left (fun s _ => finalUpdates ft s)
                         (filter resolved [(g, k')]) s') = true /\ (0 < k0)%nat
        | _ :: _ :: _ => False
        end).
      { intros k' Hk'. cbn. unfold resolved. cbn.
        destruct (Nat.eqb k' 0) eqn:E0; cbn.
        - apply finalUpdates_released.
        - apply Nat.eqb_neq in E0. split; [congruence | lia]. }
      destruct ok.
      * unfold settle. cbn [map fst snd].
        destruct (Nat.eqb g (issuedBy l)); apply Hcase; auto.
      * apply Hcase; auto.
  - exact Inv.
Qed.

Lemma run_invariant (evs : list Event) :
  forall sys, guardInvariant sys -> guardInvariant (run sys evs).
Proof.
  induction evs as [|ev evs IH]; intros sys Inv; [exact Inv|].
  cbn. apply IH, step_invariant, Inv.
Qed.

(** C5. A call of the synchronization pass that finds the in-flight flag
    set returns at once: the store is as it was, and nothing is queued.  The
    flag is clear whenever a pass has finished, be it at the end of the
    loop, after the wait for the image loads, normally or through the
    [catch] block.  So, from a store at rest, whatever the sequence of
    triggers, load completions and edits, at most one pass is in flight, and
    the flag is set exactly while one is. *)
Theorem C5_reentrancy_guard :
  (forall (now : N) (finalThrows : bool) (sys : Sys),
      isRefreshingElements (store sys) = true ->
      refreshElementsUtil now finalThrows (store sys) = (store sys, Skipped) /\
      step sys (Trigger now finalThrows) = sys) /\
  (forall (now : N) (finalThrows : bool) (s s' : Store) (o : Outcome),
      isRefreshingElements s = false ->
      refreshElementsUtil now finalThrows s = (s', o) ->
      (o = Finished \/ exists issued, o = Failed issued) ->
      isRefreshingElements s' = false) /\
  (forall (finalThrows : bool) (s : Store),
      isRefreshingElements (finalUpdates finalThrows s) = false) /\
  (forall (s : Store) (evs : list Event),
      isRefreshingElements s = false ->
      let sys := run (atRest s) evs in
      (List.length (awaiting sys) <= 1)%nat /\
      (isRefreshingElements (store sys) = true
       <-> List.length (awaiting sys) = 1%nat)).
Proof.
  split; [|split; [|split]].
  - intros now ft sys H. split; [now apply refresh_guarded|].
    cbn. rewrite (refresh_guarded now ft _ H). now destruct sys.
  - intros now ft s s' o Hf Hr Ho.
    pose proof (refresh_outcome _ _ _ _ _ Hf Hr) as H.
    destruct Ho as [-> | [issued ->]]; exact H.
  - apply finalUpdates_released.
  - intros s evs Hf sys.
    assert (Inv : guardInvariant sys) by (apply run_invariant; exact Hf).
    unfold guardInvariant in Inv.
    destruct (awaiting sys) as [|[g k] [|p t]]; cbn; try contradiction.
    + split; [lia|]. rewrite Inv. split; discriminate.
    + destruct Inv as [-> _]. split; [lia | tauto].
Qed.

Lemma C5_reentrancy_guard_witness :
  let busy := run (atRest (emptyStore onePicture)) [Trigger 17 false] in
  isRefreshingElements (store busy) = true /\
  step busy (Trigger 18 false) = busy /\
  (forall evs,
      (List.length (awaiting (run (atRest (emptyStore onePicture)) evs)) <= 1)%nat) /\
  isRefreshingElements
    (store (run busy [Trigger 18 false; LoadCompletes 0 true])) = false.
Proof.
  destruct C5_reentrancy_guard as (Hskip & _ & _ & Hinv).
  intros busy. split; [reflexivity|]. split; [|split].
  - apply (Hskip 18%N false busy). reflexivity.
  - intros evs. apply (Hinv (emptyStore onePicture) evs). reflexivity.
  - reflexivity.
Defined.

End ReentrancyGuard.

(* ------------------------------------------------------------------ *)
(** *** Remote images                                                  *)
(* ------------------------------------------------------------------ *)

Section RemoteImages.
Import Timeline Refresh.

Lemma moveTo_In (o : Obj) (index : nat) (l : list Obj) : In o (moveTo o index l).
Proof.
  unfold moveTo. apply in_or_app. right. now left.
Qed.

(** C8 (as stated) fails: the completion callback makes no check.  After a
    pass that failed behind an issued load, an edit and a second pass, the
    load of the first pass is still on its way; it was issued by pass 1, the
    store is at pass 2, which is in flight; its callback puts a node into
    the scene of pass 2, and when the load of pass 2 completes the scene
    holds two nodes for the one picture. *)
Lemma C8_stale_callback_counterexample :
  let sys := run (atRest (emptyStore pictureThenBroken)) supersededPass in
  generation (store sys) = 2%nat /\
  awaiting sys = [(2, 1)%nat] /\
  map issuedBy (pending sys) = [1; 2]%nat /\
  canvas (store sys) = Some [] /\
  (exists stale,
      nth_error (pending sys) 0 = Some stale /\
      issuedBy stale <> generation (store sys) /\
      canvas (fst (imageLoaded stale (store sys))) <> canvas (store sys)) /\
  option_map (map name)
    (canvas (store (run sys [LoadCompletes 0 false; LoadCompletes 0 false])))
  = Some ["pic"; "pic"].
Proof.
  cbv zeta. repeat split.
  eexists. split; [reflexivity|]. split; [discriminate|].
  intros H. discriminate H.
Qed.

(** C8 (amended). For an imageUrl element without a realized visual object
    that is not hidden and has a non-empty source, the pass issues one
    asynchronous load, of the source with a cache-busting [_cb] parameter
    appended after [?] or [&], and leaves the scene as it is; the node is
    inserted into the scene and moved to the element's paint index in the
    completion callback, which does so whenever it runs and a canvas exists,
    whichever pass issued the load and whichever pass the store is at. *)
Theorem C8_remote_image_load :
  (forall (now : N) (pass index : nat) (element : Element) (url : string)
          (st : PassState),
      type element = "imageUrl" ->
      fabricObject element = None ->
      hideInCanvas (properties element) = false ->
      src (properties element) = Some url ->
      url <> "" ->
      processElement now pass index element st
      = (Normal tt,
         mkPassState (objects st) (elements st) (document st) (calls st)
                     (nextOid st)
                     (imagePromises st
                      ++ [mkLoad (cacheBustUrl url now) element index pass]))) /\
  (forall (url : string) (now : N),
      exists sep, (sep = "?" \/ sep = "&") /\
        cacheBustUrl url now
        = url ++ sep ++ "_cb=" ++ NilZero.string_of_uint (N.to_uint now)) /\
  (forall (l : Load) (s : Store) (objs : list Obj),
      canvas s = Some objs ->
      exists o s',
        imageLoaded l s = (s', true) /\
        name o = id (loadElement l) /\ source o = loadUrl l /\
        canvas s' = Some (moveTo o (loadIndex l) (objs ++ [o])) /\
        In o (moveTo o (loadIndex l) (objs ++ [o])) /\
        generation s' = generation s /\
        isRefreshingElements s' = isRefreshingElements s).
Proof.
  split; [|split].
  - intros now pass index element url st Ht Hfo Hh Hs Hu.
    unfold processElement, materializeImage, bind.
    rewrite Ht, Hfo, Hh, Hs. cbn.
    apply String.eqb_neq in Hu. rewrite Hu. reflexivity.
  - intros url now. unfold cacheBustUrl.
    destruct (strIncludes "?" url); [exists "&" | exists "?"]; split; auto.
  - intros l s objs Hc. unfold imageLoaded. rewrite Hc.
    exists (mkObj (objectCount s) (id (loadElement l)) UrlImage (loadUrl l)
                  (x (placement (loadElement l))) (y (placement (loadElement l)))).
    eexists. split; [reflexivity|].
    do 3 (split; [reflexivity|]).
    split; [apply moveTo_In|]. split; reflexivity.
Qed.

Lemma C8_remote_image_load_witness :
  processElement 17 1 0 (picture "pic" 0 "https://cdn.example/p.png?x=1")
                 (initialPassState (emptyStore onePicture))
  = (Normal tt,
     mkPassState [] onePicture []
       (calls (initialPassState (emptyStore onePicture))) 0
       [mkLoad "https://cdn.example/p.png?x=1&_cb=17"
               (picture "pic" 0 "https://cdn.example/p.png?x=1") 0 1]) /\
  exists o s',
    imageLoaded (mkLoad "https://cdn.example/p.png?x=1&_cb=17"
                        (picture "pic" 0 "https://cdn.example/p.png?x=1") 0 1)
                (emptyStore onePicture) = (s', true) /\
    name o = "pic" /\ canvas s' = Some [o].
Proof.
  destruct C8_remote_image_load as (Hissue & _ & Hcb).
  split.
  - apply (Hissue 17%N 1%nat 0%nat
             (picture "pic" 0 "https://cdn.example/p.png?x=1")
             "https://cdn.example/p.png?x=1"); try reflexivity.
    discriminate.
  - destruct (Hcb (mkLoad "https://cdn.example/p.png?x=1&_cb=17"
                          (picture "pic" 0 "https://cdn.example/p.png?x=1") 0 1)
                  (emptyStore onePicture) [] eq_refl)
      as (o & s' & Hl & Hn & _ & Hc & _).
    exists o, s'. split; [exact Hl|]. split; [exact Hn|].
    rewrite Hc. unfold moveTo. cbn. now rewrite Nat.eqb_refl.
Defined.

End RemoteImages.

(* ================================================================== *)
(** ** Further properties of the row component                         *)
(* ================================================================== *)

Section RowHeightFacts.
Import RowHeight.

Lemma mathRound_inject_Z (z : Z) : mathRound (inject_Z z) = z.
Proof.
  unfold mathRound, Qfloor, inject_Z, Qplus. cbn.
  symmetry. apply (Z.div_unique (z * 2 + 1) 2 z 1); lia.
Qed.

(** X1. Whatever height a resize reports, the row height it sets is an
    integer between 20 and 200; a whole height in that range is kept as it
    is; and every default height of a row kind lies in that range, so that
    a resize to the default height changes nothing. *)
Theorem X1_row_height_bounds :
  (forall h : Q, (20 <= handleRowResize h <= 200)%Z) /\
  (forall z : Z, (20 <= z <= 200)%Z -> handleRowResize (inject_Z z) = z) /\
  (forall (t : option string) (h : Z),
      defaultHeight t = Some h ->
      (20 <= h <= 200)%Z /\ handleRowResize (inject_Z h) = h).
Proof.
  assert (Hfix : forall z : Z, (20 <= z <= 200)%Z ->
                               handleRowResize (inject_Z z) = z).
  { intros z Hz. unfold handleRowResize. rewrite mathRound_inject_Z. lia. }
  split; [intros h; unfold handleRowResize; lia|].
  split; [exact Hfix|].
  intros t h Hd.
  assert (Hr : (20 <= h <= 200)%Z).
  { unfold defaultHeight in Hd. destruct t as [t|]; [|injection Hd as <-; lia].
    destruct (ownProperty t heights) as [v|] eqn:E.
    - assert (Hv : (20 <= v <= 200)%Z).
      { unfold heights in E. cbn [ownProperty] in E.
        repeat match type of E with
               | context [String.eqb ?a ?b] =>
                   destruct (String.eqb a b); [injection E as <-; lia|]
               end.
        discriminate E. }
      destruct (Z.eqb v 0); injection Hd as <-; lia.
    - destruct (Compat.includes inheritedKeys t); [discriminate Hd|].
      injection Hd as <-; lia. }
  split; [exact Hr | apply Hfix, Hr].
Qed.

Lemma X1_row_height_bounds_witness :
  handleRowResize (inject_Z 44) = 44%Z /\
  RowHeight.defaultHeight (Some "video") = Some 44%Z /\
  handleRowResize (7 # 2) = 20%Z.
Proof.
  destruct X1_row_height_bounds as (_ & Hfix & _).
  split; [apply Hfix; lia|]. split; reflexivity.
Defined.

End RowHeightFacts.

Section Acceptance.
Import Timeline Drop Hover Compat.

(** X2. For each of the gallery payloads, on an empty row and on a row whose
    first element has a declared kind, the hover preview is flagged
    incompatible exactly when [canDrop] refuses the drop.  On a row whose
    first element has a non-empty undeclared kind the two part: an animation
    or transition preset is previewed as compatible while [canDrop]
    refuses it. *)
Theorem X2_canDrop_matches_hover (s : Store) (itemType itemId : string)
    (overlays : list Element) :
  In itemType galleryPayloads ->
  (forall k : Kind,
      rowType overlays = None \/ rowType overlays = Some (kindName k) ->
      hoverIsIncompatible itemType overlays
      = Some (negb (canDrop s itemType itemId overlays))) /\
  (forall r : string,
      rowType overlays = Some r -> r <> "" -> ~ In r declaredKinds ->
      itemType = "animation-drop" \/ itemType = "gl-transition-drop" ->
      hoverIsIncompatible itemType overlays = Some false /\
      canDrop s itemType itemId overlays = false).
Proof.
  intros Hin. split.
  - intros k Hrow.
    destruct overlays as [|e t].
    + cbn in Hin.
      repeat (destruct Hin as [<- | Hin]; [reflexivity|]). contradiction.
    + destruct Hrow as [Hrow | Hrow]; [discriminate|].
      cbn in Hrow. injection Hrow as Ht.
      unfold hoverIsIncompatible, canDrop, rowType, truthy. rewrite Ht.
      cbn in Hin.
      repeat (destruct Hin as [<- | Hin]; [destruct k; reflexivity|]).
      contradiction.
  - intros r Hrow Hne Hnd Hitem.
    destruct overlays as [|e t]; [discriminate|].
    cbn in Hrow. injection Hrow as Ht.
    destruct (outside_declared r Hnd) as (Htext & Hanim & Hmix).
    assert (Hc : forall x, x <> "animation" -> areTypesCompatible r x = false).
    { intros x Hx. unfold areTypesCompatible. rewrite Htext, Hanim, Hmix. cbn.
      apply String.eqb_neq in Hx. rewrite Hx.
      destruct (x =? "text"); reflexivity. }
    unfold hoverIsIncompatible, canDrop, rowType, truthy. rewrite Ht.
    apply String.eqb_neq in Hne. rewrite Hne, Htext.
    rewrite !Hc by discriminate.
    destruct Hitem as [-> | ->]; split; reflexivity.
Qed.

Lemma X2_canDrop_matches_hover_witness :
  hoverIsIncompatible "gallery-video" [element "t" "text" 0 0 1000] = Some true /\
  canDrop exampleRow "gallery-video" "" [element "t" "text" 0 0 1000] = false /\
  hoverIsIncompatible "animation-drop" [element "x" "transition" 0 0 1000]
  = Some false /\
  canDrop exampleRow "animation-drop" "" [element "x" "transition" 0 0 1000] = false.
Proof.
  destruct (X2_canDrop_matches_hover exampleRow "animation-drop" ""
              [element "x" "transition" 0 0 1000]) as (_ & Hu).
  { cbn. tauto. }
  destruct (Hu "transition" eq_refl) as (Hh & Hc).
  { discriminate. }
  { cbn. intros H. repeat (destruct H as [H | H]; [discriminate H|]). exact H. }
  { now left. }
  repeat split; try reflexivity; assumption.
Defined.

(** X3. For a timeline item that the store knows, [canDrop] accepts exactly
    when the item already lies on the row or the row passes the acceptance
    test of the drop handler; an item the store does not know is refused.
    So every single move that the drop handler commits had been accepted by
    [canDrop]. *)
Theorem X3_canDrop_timeline_item (s : Store) (itemType : string)
    (overlays : list Element) (rowIndex : Z) (rect : Rect) (clientX : Q)
    (dragged : Element) :
  ~ In itemType galleryPayloads ->
  (findById (id dragged) (editorElements s) = None ->
   canDrop s itemType (id dragged) overlays = false) /\
  (findById (id dragged) (editorElements s) = Some dragged ->
   canDrop s itemType (id dragged) overlays
   = existsb (fun el => String.eqb (id el) (id dragged)) overlays
     || isCompatible (rowType overlays) (type dragged)) /\
  (findById (id dragged) (editorElements s) = Some dragged ->
   draggedElement (ghostState s) = Some dragged ->
   snd (dropSingleGhost s overlays rowIndex rect clientX) <> [] ->
   canDrop s itemType (id dragged) overlays = true).
Proof.
  intros Hn.
  assert (Hne : forall k, In k galleryPayloads -> (itemType =? k) = false).
  { intros k Hk. apply String.eqb_neq. intros ->. now apply Hn. }
  assert (Hcd : canDrop s itemType (id dragged) overlays
                = match findById (id dragged) (editorElements s) with
                  | None => false
                  | Some d =>
                      existsb (fun el => String.eqb (id el) (id dragged)) overlays
                      || negb (truthy (rowType overlays))
                      || match rowType overlays with
                         | Some r => areTypesCompatible r (type d)
                         | None => false
                         end
                  end).
  { unfold canDrop. rewrite !Hne by (cbn; tauto). reflexivity. }
  assert (Heq : findById (id dragged) (editorElements s) = Some dragged ->
     canDrop s itemType (id dragged) overlays
     = existsb (fun el => String.eqb (id el) (id dragged)) overlays
       || isCompatible (rowType overlays) (type dragged)).
  { intros Hf. rewrite Hcd, Hf. unfold isCompatible. now rewrite orb_assoc. }
  split; [|split].
  - intros Hf. now rewrite Hcd, Hf.
  - exact Heq.
  - intros Hf Hd Hcalls. rewrite (Heq Hf).
    unfold dropSingleGhost in Hcalls. rewrite Hd in Hcalls.
    destruct (isCompatible (rowType overlays) (type dragged)).
    + apply orb_true_r.
    + now elim Hcalls.
Qed.

Lemma X3_canDrop_timeline_item_witness :
  canDrop singleDragStore "timeline-item" "clip" [element "t" "text" 3 0 1000]
  = false /\
  canDrop singleDragStore "timeline-item" "clip" [] = true /\
  canDrop singleDragStore "timeline-item" "nobody" [] = false.
Proof.
  assert (Hn : ~ In "timeline-item" galleryPayloads).
  { cbn. intros H. repeat (destruct H as [H | H]; [discriminate H|]). exact H. }
  destruct (X3_canDrop_timeline_item singleDragStore "timeline-item"
              [element "t" "text" 3 0 1000] 3 (mkRect 0 1000) 600 draggedClip Hn)
    as (_ & H1 & _).
  destruct (X3_canDrop_timeline_item singleDragStore "timeline-item"
              [] 3 (mkRect 0 1000) 600 draggedClip Hn) as (_ & _ & H2).
  destruct (X3_canDrop_timeline_item singleDragStore "timeline-item"
              [] 3 (mkRect 0 1000) 600 (element "nobody" "video" 0 0 1) Hn)
    as (H3 & _).
  split; [exact (eq_trans (H1 eq_refl) eq_refl)|].
  split; [apply (H2 eq_refl eq_refl); discriminate | apply H3; reflexivity].
Defined.

End Acceptance.

Section PointerArithmetic.
Import Timeline Drop Hover.





(** X6. The gallery and file ghosts map the pointer to a time linearly and
    without clamping: the left edge of the row is time 0, the right edge is
    [maxTime], a pointer inside the row gives a time inside the timeline,
    and a pointer further right never gives an earlier time. *)
Theorem X6_gallery_position (s : Store) (rect : Rect) :
  (0 < width rect)%Q ->
  (0 <= maxTime s)%Q ->
  (galleryPosition s rect (rectLeft rect) == 0)%Q /\
  (galleryPosition s rect (rectLeft rect + width rect) == maxTime s)%Q /\
  (forall x x' : Q, x <= x' ->
                    galleryPosition s rect x <= galleryPosition s rect x')%Q /\
  (forall x : Q, rectLeft rect <= x <= rectLeft rect + width rect ->
                 0 <= galleryPosition s rect x <= maxTime s)%Q.
Proof.
  intros Hw HM.
  assert (Hnz : ~ (width rect == 0)%Q) by (intros Hz; rewrite Hz in Hw; discriminate Hw).
  assert (H0 : (galleryPosition s rect (rectLeft rect) == 0)%Q)
    by (unfold galleryPosition; field; exact Hnz).
  assert (H1 : (galleryPosition s rect (rectLeft rect + width rect) == maxTime s)%Q)
    by (unfold galleryPosition; field; exact Hnz).
  assert (Hmono : forall x x' : Q,
             (x <= x' -> galleryPosition s rect x <= galleryPosition s rect x')%Q).
  { intros x x' Hx. unfold galleryPosition.
    apply Qmult_le_compat_r; [|exact HM].
    unfold Qdiv. apply Qmult_le_compat_r; [lra|].
    apply Qlt_le_weak, Qinv_lt_0_compat, Hw. }
  repeat split; auto.
  - rewrite <- H0. apply Hmono. tauto.
  - rewrite <- H1. apply Hmono. tauto.
Qed.

Lemma X6_gallery_position_witness :
  (galleryPosition exampleRow (mkRect 40 800) 440 == 5000)%Q /\
  (0 <= galleryPosition exampleRow (mkRect 40 800) 440 <= 10000)%Q.
Proof.
  split; [reflexivity|].
  apply (X6_gallery_position exampleRow (mkRect 40 800)); cbn; lra.
Defined.

End PointerArithmetic.

Section GapPlacement.
Import Timeline Drop Rows.

Lemma apart_perm (l l' : list Element) :
  Permutation l l' -> ForallOrdPairs apart l -> ForallOrdPairs apart l'.
Proof.
  induction 1 as [| x l l' Hp IH | x y l | l l' l'' _ IH1 _ IH2]; intros H.
  - exact H.
  - inversion H as [|a t Ha Ht]; subst. constructor; [|now apply IH].
    eapply Permutation_Forall; eassumption.
  - inversion H as [|a t Ha Ht]; subst.
    inversion Ht as [|b t' Hb Ht']; subst.
    inversion Ha as [|c t'' Hyx Hyl]; subst.
    constructor; [constructor; [unfold apart in *; tauto | exact Hb]|].
    constructor; assumption.
  - auto.
Qed.

(** Listed by start time, elements of positive length that do not overlap
    end before every later one begins. *)
Lemma apart_chain (l : list Element) :
  ForallOrdPairs apart l ->
  Forall (fun e => tfStart e < tfEnd e)%Q l ->
  StronglySorted (fun a b => tfStart a <= tfStart b)%Q l ->
  StronglySorted (fun a b => tfEnd a <= tfStart b)%Q l.
Proof.
  induction 1 as [|a t Ha Ht IH]; intros Hlen Hs; [constructor|].
  inversion Hlen as [|? ? Hla Hlt]; subst.
  inversion Hs as [|? ? Hst Hsa]; subst.
  constructor; [now apply IH|].
  rewrite Forall_forall in *. intros b Hb.
  specialize (Ha b Hb). specialize (Hsa b Hb). specialize (Hlt b Hb).
  unfold apart in Ha. destruct Ha as [H | H]; [exact H | lra].
Qed.

Lemma firstGap_from (minGap maxT : Q) (l : list Element) :
  forall (c : Q) (g : Q * Q),
    find (wideEnough minGap)
         (combine (c :: map tfEnd l) (map tfStart l ++ [maxT])%list) = Some g ->
    StronglySorted (fun a b => tfEnd a <= tfStart b)%Q l ->
    Forall (fun e => tfStart e < tfEnd e /\ tfEnd e <= maxT)%Q l ->
    Forall (fun e => c <= tfStart e)%Q l ->
    (c <= fst g /\ fst g + minGap <= snd g /\ snd g <= maxT /\
     Forall (fun e => tfEnd e <= fst g \/ snd g <= tfStart e) l)%Q.
Proof.
  induction l as [|e t IH]; intros c g Hfind Hchain Hwf Hc.
  - cbn in Hfind. unfold wideEnough in Hfind. cbn in Hfind.
    destruct (Qle_bool minGap (maxT - c)) eqn:E; [|discriminate].
    injection Hfind as <-. apply Qle_bool_iff in E. cbn.
    repeat split; try lra. constructor.
  - inversion Hchain as [|? ? Hct Hce]; subst.
    inversion Hwf as [|? ? [Hel Hem] Hwt]; subst.
    inversion Hc as [|? ? Hcs Hcr]; subst.
    cbn in Hfind. unfold wideEnough at 1 in Hfind. cbn [fst snd] in Hfind.
    destruct (Qle_bool minGap (tfStart e - c)) eqn:E.
    + injection Hfind as <-. apply Qle_bool_iff in E. cbn [fst snd].
      repeat split; try lra.
      constructor; [right; lra|].
      eapply Forall_impl; [|exact Hce]. cbn. intros b Hb. right. lra.
    + destruct (IH (tfEnd e) g Hfind Hct Hwt Hce) as (H1 & H2 & H3 & H4).
      repeat split; try lra.
      constructor; [left; exact H1 | exact H4].
Qed.

(** X7. On a row whose elements have positive length, end by [maxTime], do
    not start before 0 and do not overlap one another, a gallery image that
    the fallback places on the row itself starts at 0 or later, ends by
    [maxTime] with its 5000 ms, and overlaps none of the elements of the
    row. *)
Theorem X7_gap_placement_is_free (s : Store) (rowIndex : Z) (t : Q) :
  rowElementsOf s rowIndex <> [] ->
  ForallOrdPairs apart (rowElementsOf s rowIndex) ->
  Forall (fun e => 0 <= tfStart e /\ tfStart e < tfEnd e /\ tfEnd e <= maxTime s)%Q
         (rowElementsOf s rowIndex) ->
  dropGalleryImageFallback s rowIndex = [AddImageLocal rowIndex t] ->
  (0 <= t /\ t + 5000 <= maxTime s)%Q /\
  Forall (fun e => tfEnd e <= t \/ t + 5000 <= tfStart e)%Q
         (rowElementsOf s rowIndex).
Proof.
  intros Hne Hap Hwf Hdrop.
  set (sorted := jsSort byStart (rowElementsOf s rowIndex)).
  assert (Hperm : Permutation sorted (rowElementsOf s rowIndex))
    by apply jsSort_perm.
  assert (Hwf' : Forall (fun e => 0 <= tfStart e /\ tfStart e < tfEnd e /\
                                  tfEnd e <= maxTime s)%Q sorted).
  { eapply Permutation_Forall; [symmetry; exact Hperm | exact Hwf]. }
  assert (Hchain : StronglySorted (fun a b => tfEnd a <= tfStart b)%Q sorted).
  { apply apart_chain.
    - apply (apart_perm (rowElementsOf s rowIndex)); [now symmetry | exact Hap].
    - eapply Forall_impl; [|exact Hwf']. cbn. tauto.
    - apply byStart_sorted. }
  assert (Hfirst : firstGap 5000 sorted (maxTime s) = Some t).
  { unfold dropGalleryImageFallback, findSpace in Hdrop.
    fold (rowElementsOf s rowIndex) in Hdrop.
    destruct (rowElementsOf s rowIndex) as [|e r] eqn:E; [now elim Hne|].
    fold sorted in Hdrop. rewrite gapLoop_firstGap in Hdrop.
    destruct (firstGap 5000 sorted (maxTime s)); [|discriminate Hdrop].
    now injection Hdrop as ->. }
  unfold firstGap, gaps in Hfirst.
  destruct (find _ _) as [g|] eqn:Eg; [|discriminate].
  cbn in Hfirst. injection Hfirst as <-.
  destruct (firstGap_from 5000 (maxTime s) sorted 0 g Eg Hchain)
    as (H1 & H2 & H3 & H4).
  - eapply Forall_impl; [|exact Hwf']. cbn. tauto.
  - eapply Forall_impl; [|exact Hwf']. cbn. tauto.
  - split; [split; lra|].
    eapply Permutation_Forall; [exact Hperm|].
    eapply Forall_impl; [|exact H4]. cbn. intros e [He | He]; [left | right]; lra.
Qed.

Lemma X7_gap_placement_is_free_witness :
  dropGalleryImageFallback roomyRow 0 = [AddImageLocal 0 2000] /\
  Forall (fun e => tfEnd e <= 2000 \/ 2000 + 5000 <= tfStart e)%Q
         (rowElementsOf roomyRow 0).
Proof.
  split; [reflexivity|].
  apply (X7_gap_placement_is_free roomyRow 0 2000).
  - discriminate.
  - apply FOP_cons; [|apply FOP_cons; constructor].
    constructor; [|constructor]. left. cbn. discriminate.
  - constructor; [|constructor; [|constructor]]; cbn;
      (split; [|split]); discriminate || reflexivity.
  - reflexivity.
Defined.

End GapPlacement.

Section DroppedFiles.
Import Timeline Drop Hover GhostStart Rows.



(** X15. An animation created by an animation-drop never has a zero or
    missing duration: it is the duration of its properties, else the
    duration of the preset, else 600 ms, a zero counting as missing; its
    interval [[absoluteStart, absoluteEnd]] is as long as that duration and
    starts at the time resolved for the drop, or at 0 when no ghost is
    active.  The transition created by a gl-transition-drop has no such
    fallback: it takes the duration of the preset as it is, a zero or a
    missing one included, although the ghost that previewed it lasted
    1000 ms in that case. *)
Theorem X15_dropped_animation (propertiesDuration presetDuration : option Q)
    (startTime : Q) (targetRow : Z) :
  let a := newAnimation propertiesDuration presetDuration startTime targetRow in
  let t := newGLTransition presetDuration startTime targetRow in
  ~ (animationDuration a == 0)%Q /\
  (absoluteEnd a - absoluteStart a == animationDuration a)%Q /\
  absoluteStart a = startTime /\
  (forall d, propertiesDuration = Some d -> ~ (d == 0)%Q ->
             animationDuration a = d) /\
  (forall d, falsy propertiesDuration -> presetDuration = Some d ->
             ~ (d == 0)%Q -> animationDuration a = d) /\
  (falsy propertiesDuration -> falsy presetDuration ->
   animationDuration a = 600%Q) /\
  dropAnimationFallback propertiesDuration presetDuration targetRow
  = [AddAnimation targetRow 0 (animationDuration a)] /\
  glDuration t = presetDuration /\
  (forall d, presetDuration = Some d ->
             exists e, glEndTime t = Some e /\ (e - glStartTime t == d)%Q) /\
  (presetDuration = None -> glEndTime t = None) /\
  (falsy presetDuration ->
   forall item,
     GhostStart.itemType item = "gl-transition-drop" ->
     GhostStart.glTransition item = Some presetDuration ->
     GhostStart.startGalleryGhostDrag item = Some ("transition", 1000%Q)).
Proof.
  assert (Hor : forall (v : option Q) (d : Q),
     (falsy v -> orDefault v d = d) /\
     (forall w, v = Some w -> ~ (w == 0)%Q -> orDefault v d = w)).
  { intros v d. unfold orDefault, falsy. split.
    - destruct v as [w|]; [|reflexivity]. intros H.
      now rewrite (proj2 (Qeq_bool_iff w 0) H).
    - intros w -> Hw. destruct (Qeq_bool w 0) eqn:E; [|reflexivity].
      apply Qeq_bool_iff in E. contradiction. }
  assert (Hnz : forall (v : option Q) (d : Q),
     ~ (d == 0)%Q -> ~ (orDefault v d == 0)%Q).
  { intros v d Hd. unfold orDefault. destruct v as [w|]; [|exact Hd].
    destruct (Qeq_bool w 0) eqn:E; [exact Hd|].
    intros H. apply Qeq_bool_iff in H. congruence. }
  cbn. unfold droppedDuration.
  split; [apply Hnz, Hnz; discriminate|].
  split; [ring|]. split; [reflexivity|].
  split; [intros d Hp Hd; now apply (proj2 (Hor _ _))|].
  split.
  { intros d Hf Hp Hd. rewrite (proj1 (Hor propertiesDuration _) Hf).
    now apply (proj2 (Hor _ _)). }
  split.
  { intros Hf1 Hf2. rewrite (proj1 (Hor propertiesDuration _) Hf1).
    now apply (proj1 (Hor _ _)). }
  split; [reflexivity|]. split; [reflexivity|].
  split.
  { intros d ->. cbn. eexists. split; [reflexivity | ring]. }
  split; [intros ->; reflexivity|].
  intros Hf item Ht Hg. unfold GhostStart.startGalleryGhostDrag.
  rewrite Ht, Hg. cbn. now rewrite (proj1 (Hor presetDuration 1000%Q) Hf).
Qed.

Lemma X15_dropped_animation_witness :
  animationDuration (newAnimation (Some 0) (Some 1200) 3000 2) = 1200%Q /\
  animationDuration (newAnimation None (Some 0) 3000 2) = 600%Q /\
  glDuration (newGLTransition (Some 0) 3000 2) = Some 0%Q.
Proof.
  destruct (X15_dropped_animation (Some 0) (Some 1200) 3000 2)
    as (_ & _ & _ & _ & H1 & _).
  destruct (X15_dropped_animation None (Some 0) 3000 2)
    as (_ & _ & _ & _ & _ & H2 & _ & H3 & _).
  split; [|split; [|exact H3]].
  - apply (H1 1200%Q); [reflexivity | reflexivity | discriminate].
  - apply H2; [exact I | reflexivity].
Defined.

End DroppedFiles.

Section RowDragging.
Import RowDrag.

Lemma midpoint_le (a b y : Q) : (a <= b -> b <= y -> (a + b) / 2 <= y)%Q.
Proof.
  intros H1 H2. apply Qle_shift_div_r; [reflexivity | lra].
Qed.

Lemma midpoint_ge (a b y : Q) : (y <= a -> a <= b -> y <= (a + b) / 2)%Q.
Proof.
  intros H1 H2. apply Qle_shift_div_l; [reflexivity | lra].
Qed.

(** X9. Releasing the mouse reorders rows exactly when a move to the same
    point shows a target, and to that target: the row under the pointer,
    never the dragged row itself; the insert mark is below for a target
    further down and above for one further up.  When the rows are stacked
    without overlap, a pointer inside another row always makes that row
    the target. *)
Theorem X9_row_drag_target (rowIndex : Z) (origin : option VRect)
    (hovered : option (Z * VRect)) (clientY : Q) :
  (forall t,
      handleMouseUp rowIndex origin hovered clientY = FinishRowDrag t <->
      exists pos,
        handleMouseMove rowIndex origin hovered clientY
        = Some (Target t (Some pos))) /\
  (forall t,
      handleMouseUp rowIndex origin hovered clientY = FinishRowDrag t ->
      t <> rowIndex /\ exists r, hovered = Some (t, r)) /\
  (forall t p,
      handleMouseMove rowIndex origin hovered clientY = Some (Target t p) ->
      (p = Some Below /\ (rowIndex < t)%Z) \/ (p = Some Above /\ (t < rowIndex)%Z)) /\
  (forall o c r,
      origin = Some o -> hovered = Some (c, r) ->
      ((rowIndex < c)%Z /\ (rectBottom o <= rectTop r)%Q /\ (rectTop r <= clientY)%Q) \/
      ((c < rowIndex)%Z /\ (rectBottom r <= rectTop o)%Q /\ (clientY <= rectBottom r)%Q) ->
      handleMouseUp rowIndex origin hovered clientY = FinishRowDrag c).
Proof.
  split; [|split; [|split]].
  - intros t. unfold handleMouseUp, handleMouseMove.
    destruct origin as [o|].
    2:{ rewrite Z.eqb_refl. split; [discriminate | intros [p H]; discriminate]. }
    destruct hovered as [[c r]|].
    2:{ rewrite Z.eqb_refl. split; [discriminate | intros [p H]; discriminate]. }
    destruct (Z.eqb c rowIndex) eqn:Ec.
    { rewrite Z.eqb_refl. split; [discriminate | intros [p H]; discriminate]. }
    destruct (Z.ltb rowIndex c);
      match goal with
      | |- context [Qle_bool ?a ?b] => destruct (Qle_bool a b)
      end; rewrite ?Ec, ?Z.eqb_refl; cbn;
      split; try discriminate;
      try (intros [= <-]; eexists; reflexivity);
      try (intros [p [= <- <-]]; reflexivity);
      intros [p H]; discriminate.
  - intros t. unfold handleMouseUp.
    destruct origin as [o|]; [|rewrite Z.eqb_refl; discriminate].
    destruct hovered as [[c r]|]; [|rewrite Z.eqb_refl; discriminate].
    destruct (Z.eqb c rowIndex) eqn:Ec; [rewrite Z.eqb_refl; discriminate|].
    apply Z.eqb_neq in Ec.
    destruct (Z.ltb rowIndex c);
      match goal with
      | |- context [Qle_bool ?a ?b] => destruct (Qle_bool a b)
      end;
      try (rewrite Z.eqb_refl; discriminate);
      apply Z.eqb_neq in Ec; rewrite Ec; cbn; intros [= <-];
      apply Z.eqb_neq in Ec; split; eauto.
  - intros t p. unfold handleMouseMove.
    destruct origin as [o|]; [|discriminate].
    destruct hovered as [[c r]|]; [|discriminate].
    destruct (Z.eqb c rowIndex) eqn:Ec; [discriminate|].
    destruct (Z.ltb rowIndex c) eqn:El;
      match goal with
      | |- context [Qle_bool ?a ?b] => destruct (Qle_bool a b)
      end; rewrite ?Ec, ?Z.eqb_refl; cbn; try discriminate;
      intros [= <- <-].
    + left. split; [reflexivity | now apply Z.ltb_lt].
    + right. split; [reflexivity|].
      apply Z.ltb_ge in El. apply Z.eqb_neq in Ec. lia.
  - intros o c r -> -> H. unfold handleMouseUp.
    destruct H as [(Hlt & H1 & H2) | (Hlt & H1 & H2)].
    + replace (Z.eqb c rowIndex) with false by (symmetry; apply Z.eqb_neq; lia).
      replace (Z.ltb rowIndex c) with true by (symmetry; apply Z.ltb_lt; lia).
      rewrite (proj2 (Qle_bool_iff _ _) (midpoint_le _ _ _ H1 H2)).
      now replace (Z.eqb c rowIndex) with false by (symmetry; apply Z.eqb_neq; lia).
    + replace (Z.eqb c rowIndex) with false by (symmetry; apply Z.eqb_neq; lia).
      replace (Z.ltb rowIndex c) with false by (symmetry; apply Z.ltb_ge; lia).
      rewrite (proj2 (Qle_bool_iff _ _) (midpoint_ge _ _ _ H2 H1)).
      now replace (Z.eqb c rowIndex) with false by (symmetry; apply Z.eqb_neq; lia).
Qed.

Lemma X9_row_drag_target_witness :
  handleMouseUp 1 (Some (mkVRect 44 88)) (Some (3%Z, mkVRect 124 160)) 130
  = FinishRowDrag 3 /\
  handleMouseMove 1 (Some (mkVRect 44 88)) (Some (3%Z, mkVRect 124 160)) 130
  = Some (Target 3 (Some Below)).
Proof.
  destruct (X9_row_drag_target 1 (Some (mkVRect 44 88))
              (Some (3%Z, mkVRect 124 160)) 130) as (_ & _ & _ & Hs).
  split; [|reflexivity].
  apply (Hs (mkVRect 44 88) 3%Z (mkVRect 124 160) eq_refl eq_refl).
  left. cbn. repeat split; (lia || discriminate).
Defined.

End RowDragging.

(* ================================================================== *)
(** ** Further properties of the refresh pass                          *)
(* ================================================================== *)

Section CacheBusting.
Import Timeline Refresh.

Lemma prefix_empty (s : string) : String.prefix "" s = true.
Proof. now destruct s. Qed.

Lemma prefix_append (a b : string) : String.prefix a (a ++ b) = true.
Proof.
  induction a as [|c a IH]; cbn; [apply prefix_empty|].
  destruct (ascii_dec c c) as [_ | Hc]; [exact IH | now elim Hc].
Qed.

Lemma prefix_question (c : ascii) (s : string) :
  String.prefix "?" (String c s) = if ascii_dec "?" c then true else false.
Proof.
  change (String.prefix "?" (String c s))
    with (if ascii_dec "?" c then String.prefix "" s else false).
  destruct (ascii_dec "?" c); [apply prefix_empty | reflexivity].
Qed.

Lemma strIncludes_cons (n : string) (c : ascii) (s : string) :
  strIncludes n (String c s) = String.prefix n (String c s) || strIncludes n s.
Proof. reflexivity. Qed.

Lemma strIncludes_question_app (a b : string) :
  strIncludes "?" a = true -> strIncludes "?" (a ++ b) = true.
Proof.
  induction a as [|c a IH]; [discriminate|].
  change (String c a ++ b) with (String c (a ++ b)).
  rewrite !strIncludes_cons, !prefix_question.
  destruct (ascii_dec "?" c); [reflexivity | exact IH].
Qed.

Lemma strIncludes_question_mid (a b : string) :
  strIncludes "?" (a ++ String "?" b) = true.
Proof.
  induction a as [|c a IH].
  - change ("" ++ String "?" b) with (String "?" b).
    rewrite strIncludes_cons, prefix_question. reflexivity.
  - change (String c a ++ String "?" b) with (String c (a ++ String "?" b)).
    rewrite strIncludes_cons, IH. apply orb_true_r.
Qed.

Lemma append_cancel_l (a b c : string) : a ++ b = a ++ c -> b = c.
Proof.
  induction a as [|x a IH]; cbn; [auto|]. intros [= H]. now apply IH.
Qed.

Lemma timestamp_inj (n n' : N) :
  NilZero.string_of_uint (N.to_uint n) = NilZero.string_of_uint (N.to_uint n') ->
  n = n'.
Proof.
  intros H. apply DecimalN.Unsigned.to_uint_inj.
  assert (Hnn : forall m, N.to_uint m <> Decimal.Nil).
  { intros [|p]; [discriminate|]. apply DecimalPos.Unsigned.to_uint_nonnil. }
  assert (Hs : Some (N.to_uint n) = Some (N.to_uint n')).
  { rewrite <- (NilZero.usu _ (Hnn n)), <- (NilZero.usu _ (Hnn n')).
    now rewrite H. }
  now injection Hs.
Qed.

(** X12. The cache-busted URL starts with the source, always carries a
    query (a [?] occurs in it), and two loads of one source at different
    times never have the same URL. *)
Theorem X12_cache_busting (src : string) :
  (forall now, String.prefix src (cacheBustUrl src now) = true) /\
  (forall now, strIncludes "?" (cacheBustUrl src now) = true) /\
  (forall now now', now <> now' -> cacheBustUrl src now <> cacheBustUrl src now').
Proof.
  unfold cacheBustUrl. split; [|split].
  - intros now. apply prefix_append.
  - intros now. destruct (strIncludes "?" src) eqn:E.
    + now apply strIncludes_question_app.
    + apply strIncludes_question_mid.
  - intros now now' Hne H. apply Hne.
    apply append_cancel_l, append_cancel_l, append_cancel_l in H.
    now apply timestamp_inj.
Qed.

Lemma X12_cache_busting_witness :
  cacheBustUrl "https://cdn.example/p.png?x=1" 17
  = "https://cdn.example/p.png?x=1&_cb=17" /\
  cacheBustUrl "https://cdn.example/p.png" 17
  <> cacheBustUrl "https://cdn.example/p.png" 18.
Proof.
  split; [reflexivity|].
  apply (X12_cache_busting "https://cdn.example/p.png"). discriminate.
Defined.

End CacheBusting.

Section LoopBody.
Import Timeline Refresh Runs.

Ltac unfoldBody :=
  unfold processElement, materializeVideo, materializeImage, materializeText,
    materializeAudio, bind, ret, continue_, defined, getElementById,
    setFabricObject, onCanvas, call, appendChild, pushPromise, newObject,
    modify.

Ltac splitBody :=
  repeat (cbn -[moveTo add bringToFront removeFromArray assignFabricObject
                cacheBustUrl];
          match goal with
          | |- context [match ?x with _ => _ end] =>
              lazymatch x with
              | context [match _ with _ => _ end] => fail
              | _ => destruct x eqn:?
              end
          end).

(** Whatever an iteration does, it leaves the promises issued before it in
    place and adds at most one, issued by the pass at hand. *)
Lemma processElement_promises (now : N) (pass index : nat) (element : Element)
    (st : PassState) :
  exists new,
    imagePromises (snd (processElement now pass index element st))
    = (imagePromises st ++ new)%list /\
    Forall (fun l => issuedBy l = pass) new.
Proof.
  unfoldBody. splitBody; cbn;
    first [ exists []; split; [now rewrite app_nil_r | constructor]
          | eexists [_]; split; [reflexivity | repeat constructor] ].
Qed.

Lemma processElements_promises (now : N) (pass : nat) (l : list Element) :
  forall (index : nat) (st : PassState),
  exists new,
    imagePromises (snd (processElements now pass index l st))
    = (imagePromises st ++ new)%list /\
    Forall (fun l => issuedBy l = pass) new.
Proof.
  induction l as [|e t IH]; intros index st.
  - exists []. split; [cbn; now rewrite app_nil_r | constructor].
  - cbn [processElements].
    destruct (processElement_promises now pass index e st) as (n1 & H1 & F1).
    destruct (processElement now pass index e st) as [c st'] eqn:E.
    cbn [snd] in H1.
    assert (Hrest : exists new,
      imagePromises (snd (processElements now pass (S index) t st'))
      = (imagePromises st ++ new)%list /\
      Forall (fun l => issuedBy l = pass) new).
    { destruct (IH (S index) st') as (n2 & H2 & F2).
      exists (n1 ++ n2)%list. split.
      - now rewrite H2, H1, app_assoc.
      - apply Forall_app. now split. }
    destruct c; [exact Hrest | exact Hrest |].
    exists n1. now split.
Qed.

(** *** Nodes and their place in the scene *)

Lemma removeFromArray_fresh (o : Obj) (l : list Obj) :
  Forall (fun o' => oid o' <> oid o) l -> removeFromArray o l = l.
Proof.
  induction 1 as [|a t Ha _ IH]; [reflexivity|]. cbn.
  apply Nat.eqb_neq in Ha. rewrite Ha. now f_equal.
Qed.

Lemma removeFromArray_inserted (o : Obj) (l1 l2 : list Obj) :
  Forall (fun o' => oid o' <> oid o) l1 ->
  removeFromArray o (l1 ++ o :: l2) = (l1 ++ l2)%list.
Proof.
  induction 1 as [|a t Ha _ IH]; cbn.
  - now rewrite Nat.eqb_refl.
  - apply Nat.eqb_neq in Ha. rewrite Ha. now f_equal.
Qed.

Lemma moveTo_add_fresh (o : Obj) (index : nat) (l : list Obj) :
  Forall (fun o' => oid o' <> oid o) l ->
  moveTo o index (add o l) = (firstn index l ++ o :: skipn index l)%list.
Proof.
  intros H. unfold moveTo, add.
  rewrite (removeFromArray_inserted o l [] H), app_nil_r. reflexivity.
Qed.

Lemma bringToFront_inserted (o : Obj) (index : nat) (l : list Obj) :
  Forall (fun o' => oid o' <> oid o) l ->
  bringToFront o (firstn index l ++ o :: skipn index l) = add o l.
Proof.
  intros H. unfold bringToFront, add.
  rewrite removeFromArray_inserted.
  - now rewrite firstn_skipn.
  - rewrite <- (firstn_skipn index l) in H. now apply Forall_app in H.
Qed.

Lemma processElement_node (now : N) (pass index : nat) (element : Element)
    (st : PassState) :
  freshOid st ->
  let r := processElement now pass index element st in
  nextOid (snd r) = nextOid st \/
  (fst r = Normal tt /\ nextOid (snd r) = S (nextOid st) /\
   exists o, oid o = nextOid st /\ name o = id element /\
             objects (snd r)
             = (firstn index (objects st) ++ o :: skipn index (objects st))%list).
Proof.
  intros Hfresh. unfold freshOid in Hfresh. unfoldBody. splitBody; cbn;
    first
      [ left; reflexivity
      | right; split; [reflexivity|]; split; [reflexivity|];
        eexists; split; [|split];
        [ | | first
                [ rewrite moveTo_add_fresh by exact Hfresh; reflexivity
                | rewrite (moveTo_add_fresh _ index) by exact Hfresh;
                  rewrite bringToFront_inserted by exact Hfresh;
                  rewrite moveTo_add_fresh by exact Hfresh; reflexivity ] ];
        reflexivity ].
Qed.

(** X14. When an iteration of the loop creates a node (for a video, an
    image or a text), and no node of the scene has the new identity yet, the
    iteration ends normally with the node, named after the element, inserted
    at the element's paint index, or at the end when the scene is shorter;
    the other nodes keep their order.  For a text this undoes the
    [bringToFront] that precedes it. *)
Theorem X14_new_node_at_paint_index (now : N) (pass index : nat)
    (element : Element) (st : PassState) :
  freshOid st ->
  let r := processElement now pass index element st in
  nextOid (snd r) <> nextOid st ->
  fst r = Normal tt /\
  exists o,
    oid o = nextOid st /\ name o = id element /\
    objects (snd r)
    = (firstn index (objects st) ++ o :: skipn index (objects st))%list /\
    nth_error (objects (snd r)) (Nat.min index (List.length (objects st)))
    = Some o /\
    List.length (objects (snd r)) = S (List.length (objects st)).
Proof.
  intros Hfresh r Hnew.
  destruct (processElement_node now pass index element st Hfresh)
    as [Hsame | (Hn & _ & o & Ho & Hname & Hobj)]; [contradiction|].
  fold r in Hn, Hobj. split; [exact Hn|].
  exists o. repeat split; try assumption.
  - rewrite Hobj, nth_error_app2 by (rewrite length_firstn; lia).
    rewrite length_firstn, Nat.sub_diag. reflexivity.
  - rewrite Hobj, length_app. cbn. rewrite length_firstn, length_skipn. lia.
Qed.

Lemma X14_new_node_at_paint_index_witness :
  map name (objects (snd (processElement 17 1 1 (clip "v" 0) videoState)))
  = ["a"; "v"; "b"] /\
  map name (objects (snd (processElement 17 1 1
                            (caption "v" 0 (Some "#202020")) videoState)))
  = ["a"; "v"; "b"] /\
  exists o,
    nth_error (objects (snd (processElement 17 1 1 (clip "v" 0) videoState))) 1
    = Some o /\ name o = "v".
Proof.
  split; [reflexivity|]. split; [reflexivity|].
  destruct (X14_new_node_at_paint_index 17 1 1 (clip "v" 0) videoState)
    as (_ & o & _ & Hn & _ & Hnth & _).
  - repeat constructor; cbn; discriminate.
  - cbn. discriminate.
  - exists o. split; [exact Hnth | exact Hn].
Defined.

(** X10. An element whose source handle is missing is passed over and
    leaves the state of the pass as it was: a video or an image whose
    document node is absent or of another kind, a remote image without a
    source, an element hidden from the canvas or kept to the timeline that
    has no node, and an element of an unknown type. *)
Theorem X10_missing_source_is_skipped (now : N) (pass index : nat)
    (element : Element) (st : PassState) :
  let node := find (fun n => String.eqb (domId n) (elementId (properties element)))
                   (document st) in
  (type element = "video" ->
   (forall n, node = Some n -> isHtmlVideoElement n = false) ->
   processElement now pass index element st = (Continued, st)) /\
  (type element = "image" ->
   fabricObject element = None -> hideInCanvas (properties element) = false ->
   (forall n, node = Some n -> isHtmlImageElement n = false) ->
   processElement now pass index element st = (Continued, st)) /\
  (type element = "imageUrl" ->
   fabricObject element = None -> hideInCanvas (properties element) = false ->
   nonEmpty (src (properties element)) = false ->
   processElement now pass index element st = (Normal tt, st)) /\
  (type element = "image" \/ type element = "imageUrl" ->
   fabricObject element = None -> hideInCanvas (properties element) = true ->
   processElement now pass index element st = (Normal tt, st)) /\
  (type element = "text" ->
   fabricObject element = None -> timelineOnly (properties element) = true ->
   processElement now pass index element st = (Normal tt, st)) /\
  (~ In (type element) ["video"; "image"; "imageUrl"; "text"; "audio"] ->
   processElement now pass index element st = (Continued, st)).
Proof.
  intros node. subst node.
  split; [|split; [|split; [|split; [|split]]]].
  - intros Ht Hn. unfoldBody. rewrite Ht. cbn.
    destruct (find _ _) as [n|] eqn:E; [|reflexivity].
    now rewrite (Hn n eq_refl).
  - intros Ht Hf Hh Hn. unfoldBody. rewrite Ht, Hf, Hh. cbn.
    destruct (find _ _) as [n|] eqn:E; [|reflexivity].
    now rewrite (Hn n eq_refl).
  - intros Ht Hf Hh Hs. unfoldBody. rewrite Ht, Hf, Hh, Hs. reflexivity.
  - intros [Ht | Ht] Hf Hh; unfoldBody; rewrite Ht, Hf, Hh; reflexivity.
  - intros Ht Hf Hh. unfoldBody. rewrite Ht, Hf, Hh. reflexivity.
  - intros Hn. unfoldBody.
    assert (Hne : forall k, In k ["video"; "image"; "imageUrl"; "text"; "audio"] ->
                            (type element =? k) = false).
    { intros k Hk. apply String.eqb_neq. intros H. apply Hn. now rewrite H. }
    rewrite !Hne by (cbn; tauto). reflexivity.
Qed.

Lemma X10_missing_source_is_skipped_witness :
  processElement 17 1 0 (clip "w" 0) videoState = (Continued, videoState) /\
  processElement 17 1 0 (element "x" "transition" 0 0 1000) videoState
  = (Continued, videoState).
Proof.
  destruct (X10_missing_source_is_skipped 17 1 0 (clip "w" 0) videoState)
    as (Hv & _).
  destruct (X10_missing_source_is_skipped 17 1 0
              (element "x" "transition" 0 0 1000) videoState)
    as (_ & _ & _ & _ & _ & Hu).
  split.
  - apply Hv; [reflexivity | discriminate].
  - apply Hu. cbn. intros H.
    repeat (destruct H as [H | H]; [discriminate H|]). exact H.
Defined.

(** X11. An audio element without a node gets no node: the iteration leaves
    the scene, the elements and the promises alone and only makes sure that
    the document holds an audio node with the element's id, adding one when
    there is none; done again, it changes nothing.  The id must not be
    empty: [document.getElementById] finds nothing under the empty id, so
    that such an element would get a further audio node in every pass. *)
Theorem X11_audio_node_ensured (now : N) (pass index : nat) (element : Element)
    (st : PassState) :
  type element = "audio" ->
  fabricObject element = None ->
  elementId (properties element) <> "" ->
  let r := processElement now pass index element st in
  let present (d : list DomNode) :=
    find (fun n => String.eqb (domId n) (elementId (properties element))) d in
  fst r = Normal tt /\
  objects (snd r) = objects st /\ elements (snd r) = elements st /\
  imagePromises (snd r) = imagePromises st /\
  present (document (snd r)) <> None /\
  (present (document st) <> None -> snd r = st) /\
  processElement now pass index element (snd r) = (Normal tt, snd r).
Proof.
  intros Ht Hf _ r present. subst r present.
  assert (Hfound : forall st',
     find (fun n => String.eqb (domId n) (elementId (properties element)))
          (document st') <> None ->
     processElement now pass index element st' = (Normal tt, st')).
  { intros st' H. unfoldBody. rewrite Ht, Hf. cbn.
    destruct (find _ _); [reflexivity | now elim H]. }
  destruct (find (fun n => String.eqb (domId n) (elementId (properties element)))
                 (document st)) as [n|] eqn:E.
  - assert (Hst : processElement now pass index element st = (Normal tt, st)).
    { apply Hfound. rewrite E. discriminate. }
    rewrite Hst. cbn [fst snd]. rewrite E.
    split; [reflexivity|]. split; [reflexivity|]. split; [reflexivity|].
    split; [reflexivity|]. split; [discriminate|]. split; [reflexivity|].
    exact Hst.
  - assert (Hst : processElement now pass index element st
                  = (Normal tt,
                     mkPassState (objects st) (elements st)
                                 (document st
                                  ++ [mkDomNode (elementId (properties element))
                                                AudioTag])
                                 (calls st) (nextOid st) (imagePromises st))).
    { unfoldBody. rewrite Ht, Hf. cbn. rewrite E. reflexivity. }
    rewrite Hst. cbn [fst snd objects elements imagePromises document].
    assert (Hp : find (fun n => String.eqb (domId n)
                                           (elementId (properties element)))
                      (document st
                       ++ [mkDomNode (elementId (properties element)) AudioTag])
                 <> None).
    { clear -E. induction (document st) as [|d t IH]; cbn.
      - rewrite String.eqb_refl. discriminate.
      - cbn in E. destruct (String.eqb (domId d) _); [discriminate | now apply IH]. }
    split; [reflexivity|]. split; [reflexivity|]. split; [reflexivity|].
    split; [reflexivity|]. split; [exact Hp|]. split.
    + intros H. now elim H.
    + apply Hfound. exact Hp.
Qed.

Lemma X11_audio_node_ensured_witness :
  document (snd (processElement 17 1 0 (tune "t") videoState))
  = [mkDomNode "v-dom" VideoTag; mkDomNode "t-dom" AudioTag] /\
  processElement 17 1 0 (tune "t")
                 (snd (processElement 17 1 0 (tune "t") videoState))
  = (Normal tt, snd (processElement 17 1 0 (tune "t") videoState)).
Proof.
  split; [reflexivity|].
  apply (X11_audio_node_ensured 17 1 0 (tune "t") videoState);
    [reflexivity | reflexivity | discriminate].
Defined.

End LoopBody.

(* ------------------------------------------------------------------ *)
(** *** Runs without a failed pass (refreshElements.js, 8-12, 176-221,
        467-495)                                                        *)

Section QuietRuns.
Import Timeline Refresh Runs.

Lemma removeNth_length {A : Type} (l : list A) :
  forall n x, nth_error l n = Some x ->
              List.length (removeNth n l) = (List.length l - 1)%nat.
Proof.
  induction l as [|a t IH]; intros [|n] x H; try discriminate; cbn.
  - lia.
  - cbn in H. rewrite (IH n x H).
    destruct t; [destruct n; discriminate | cbn; lia].
Qed.

Lemma removeNth_Forall {A : Type} (P : A -> Prop) (l : list A) :
  forall n, Forall P l -> Forall P (removeNth n l).
Proof.
  induction l as [|a t IH]; intros n H; [destruct n; constructor|].
  inversion H; subst. destruct n; cbn; [assumption|].
  constructor; [assumption | now apply IH].
Qed.

Lemma finalUpdates_keeps (finalThrows : bool) (s : Store) :
  canvas (finalUpdates finalThrows s) = canvas s /\
  generation (finalUpdates finalThrows s) = generation s /\
  isRefreshingElements (finalUpdates finalThrows s) = false.
Proof.
  unfold finalUpdates. now destruct finalThrows.
Qed.

Lemma ownLoads_step (sys : Sys) (ev : Event) :
  ownLoads sys -> noFailure sys [ev] -> ownLoads (step sys ev).
Proof.
  intros (Hc & Hp & Ha) [Hev _]. destruct ev as [now ft | n ft | l].
  - cbn [step]. unfold refreshElementsUtil in *.
    destruct (canvas (store sys)) as [objs|] eqn:Ec; [|now elim Hc].
    destruct (isRefreshingElements (store sys)) eqn:Ef.
    { unfold ownLoads. cbn. rewrite Ec, Ef.
      repeat split; try assumption; discriminate. }
    destruct (awaiting sys) as [|[g k] [|p t]] eqn:Ea; try contradiction;
      [|destruct Ha as (_ & _ & _ & ?); discriminate].
    destruct Ha as [Hnil _].
    pose proof (processElements_promises now (S (generation (store sys)))
                  (sortedElements (editorElements (store sys))) 0
                  (initialPassState (store sys))) as (new & Hnew & Fnew).
    destruct (processElements _ _ _ _ _) as [threw st1].
    cbn [snd initialPassState imagePromises app] in Hnew.
    destruct threw; [contradiction|].
    destruct (imagePromises st1) as [|l0 rest] eqn:Ei.
    + pose proof (finalUpdates_keeps ft (afterLoop (store sys) st1))
        as (Kc & Kg & Kf).
      unfold ownLoads. cbn [store pending awaiting]. rewrite Kc, Kf, Hnil.
      repeat split; try constructor. discriminate.
    + unfold ownLoads. cbn [store pending awaiting afterLoop canvas generation
                            isRefreshingElements].
      rewrite Hnil. cbn [app List.length].
      split; [discriminate|]. split; [now rewrite Hnew|].
      repeat split. lia.
  - cbn [step].
    destruct (nth_error (pending sys) n) as [l|] eqn:En;
      [|now repeat split].
    assert (Hl : issuedBy l = generation (store sys)).
    { rewrite Forall_forall in Hp. apply Hp. eapply nth_error_In, En. }
    unfold imageLoaded.
    destruct (canvas (store sys)) as [objs|] eqn:Ec; [|now elim Hc].
    destruct (awaiting sys) as [|[g k] [|p t]] eqn:Ea; try contradiction.
    { destruct Ha as [Hnil _]. rewrite Hnil in En. destruct n; discriminate. }
    destruct Ha as (Hg & Hk & Hpos & Hf).
    unfold settle. cbn [map fst snd]. rewrite Hg, Hl, Nat.eqb_refl.
    pose proof (removeNth_length _ _ _ En) as Hlen.
    pose proof (removeNth_Forall _ _ n Hp) as Hrest.
    unfold resolved. cbn [filter snd]. rewrite <- Hl in *.
    destruct (Nat.eqb (k - 1) 0) eqn:E0; cbn [negb fold_left].
    + apply Nat.eqb_eq in E0.
      match goal with |- ownLoads (mkSys (finalUpdates ft ?s0) _ _) =>
        pose proof (finalUpdates_keeps ft s0) as (Kc & Kg & Kf) end.
      unfold ownLoads. cbn [store pending awaiting]. rewrite Kc, Kg, Kf.
      cbn [canvas generation].
      split; [discriminate|]. split; [exact Hrest|]. split; [|reflexivity].
      apply length_zero_iff_nil. lia.
    + apply Nat.eqb_neq in E0.
      unfold ownLoads. cbn [store pending awaiting canvas generation
                            isRefreshingElements].
      split; [discriminate|]. split; [exact Hrest|].
      repeat split; try assumption; lia.
  - unfold ownLoads. cbn. now repeat split.
Qed.

Lemma ownLoads_run (evs : list Event) :
  forall sys, ownLoads sys -> noFailure sys evs -> ownLoads (run sys evs).
Proof.
  induction evs as [|ev evs IH]; intros sys Inv Hq; [exact Inv|].
  destruct Hq as [Hev Hrest]. cbn [run fold_left].
  apply IH; [|exact Hrest]. apply ownLoads_step; [exact Inv | now split].
Qed.

(** X13. As long as no pass ends in the [catch] block of its loop, every
    load on its way belongs to the pass in flight: from a store at rest that
    has a canvas, after any sequence of triggers, load completions and edits
    none of which fails, each pending load was issued by the latest pass,
    that pass waits for exactly the pending loads, and when the in-flight
    flag is clear no load is pending.  So a completion callback can reach
    the scene of a later pass only after a failed pass. *)
Theorem X13_loads_belong_to_pass_in_flight (s : Store) (evs : list Event) :
  canvas s <> None ->
  isRefreshingElements s = false ->
  noFailure (atRest s) evs ->
  let sys := run (atRest s) evs in
  Forall (fun l => issuedBy l = generation (store sys)) (pending sys) /\
  (isRefreshingElements (store sys) = false -> pending sys = []) /\
  (forall g k, In (g, k) (awaiting sys) ->
               g = generation (store sys) /\ k = List.length (pending sys)).
Proof.
  intros Hc Hf Hq sys.
  assert (Inv : ownLoads sys).
  { apply ownLoads_run; [|exact Hq]. repeat split; [exact Hc | constructor | exact Hf]. }
  destruct Inv as (_ & Hp & Ha). split; [exact Hp|].
  destruct (awaiting sys) as [|[g k] [|p t]]; try contradiction.
  - split; [intros _; apply Ha | intros ? ? []].
  - destruct Ha as (Hg & Hk & _ & Hfl). split.
    + intros H. congruence.
    + intros g' k' [[= <- <-] | []]. now split.
Qed.

Lemma X13_loads_belong_to_pass_in_flight_witness :
  let sys := run (atRest (emptyStore twoPictures)) quietRun in
  map issuedBy (pending sys) = [1%nat] /\
  Forall (fun l => issuedBy l = generation (store sys)) (pending sys) /\
  (isRefreshingElements (store sys) = false -> pending sys = []).
Proof.
  intros sys. split; [reflexivity|].
  destruct (X13_loads_belong_to_pass_in_flight (emptyStore twoPictures) quietRun)
    as (Hp & Hf & _).
  - discriminate.
  - reflexivity.
  - cbn. repeat split.
  - split; [exact Hp | exact Hf].
Defined.

End QuietRuns.

(* ------------------------------------------------------------------ *)
(** *** Gallery video without ghost (TimelineRow.jsx, 737-799)         *)

Section VideoWithoutGhost.
Import Timeline Drop VideoFallback.

Lemma wideEnough_mono (w w' : Q) (g : Q * Q) :
  (w <= w')%Q -> wideEnough w' g = true -> wideEnough w g = true.
Proof.
  unfold wideEnough. rewrite !Qle_bool_iff. intros. lra.
Qed.

Lemma find_wideEnough_mono (w w' : Q) (l : list (Q * Q)) :
  (w <= w')%Q -> find (wideEnough w') l <> None -> find (wideEnough w) l <> None.
Proof.
  intros Hw. induction l as [|g t IH]; cbn; [tauto|].
  destruct (wideEnough w' g) eqn:E.
  - rewrite (wideEnough_mono w w' g Hw E). discriminate.
  - destruct (wideEnough w g); [discriminate | exact IH].
Qed.

Lemma findSpace_hasSpace (s : Store) (rowIndex : Z) (minGap : Q) :
  snd (findSpace s rowIndex minGap) = true <->
  rowElementsOf s rowIndex = [] \/
  exists g, In g (gaps (jsSort byStart (rowElementsOf s rowIndex)) (maxTime s)) /\
            (minGap <= snd g - fst g)%Q.
Proof.
  unfold findSpace. fold (rowElementsOf s rowIndex).
  destruct (rowElementsOf s rowIndex) as [|e t] eqn:E; [cbn; tauto|].
  rewrite gapLoop_firstGap. unfold firstGap.
  destruct (find _ _) as [g|] eqn:F; cbn [option_map snd].
  - split; [|reflexivity]. intros _. right. exists g.
    apply find_some in F. destruct F as [Hin Hw].
    split; [exact Hin|]. now apply Qle_bool_iff.
  - split; [discriminate|]. intros [H | (g & Hin & Hw)]; [discriminate|].
    pose proof (find_none _ _ F g Hin) as Hn. unfold wideEnough in Hn.
    apply Qle_bool_iff in Hw. congruence.
Qed.

Lemma findSpace_mono (s : Store) (rowIndex : Z) (w w' : Q) :
  (w <= w')%Q ->
  snd (findSpace s rowIndex w') = true -> snd (findSpace s rowIndex w) = true.
Proof.
  intros Hw. rewrite !findSpace_hasSpace.
  intros [H | (g & Hin & Hg)]; [now left|].
  right. exists g. split; [exact Hin | lra].
Qed.

(** X16. A gallery video dropped without ghost stays on the row exactly when
    the row is empty or one of its gaps (before the first element, between
    neighbours in order of start, after the last up to [maxTime]) is at
    least 10000 ms wide, and goes to the row below, shifted in, otherwise;
    the scan is the one of the image with a larger literal, so a row that
    cannot take an image this way cannot take a video either. *)
Theorem X16_video_without_ghost (s : Store) (rowIndex : Z) :
  (dropGalleryVideoFallback s rowIndex = [VideoFromUrl rowIndex] <->
   rowElementsOf s rowIndex = [] \/
   exists g, In g (gaps (jsSort byStart (rowElementsOf s rowIndex)) (maxTime s)) /\
             (10000 <= snd g - fst g)%Q) /\
  (dropGalleryVideoFallback s rowIndex <> [VideoFromUrl rowIndex] ->
   dropGalleryVideoFallback s rowIndex
   = [VideoShiftRowsDown (rowIndex + 1); VideoFromUrl (rowIndex + 1)]) /\
  (dropGalleryImageFallback s rowIndex
   = [ShiftRowsDown (rowIndex + 1); AddImageLocal (rowIndex + 1) 0] ->
   dropGalleryVideoFallback s rowIndex
   = [VideoShiftRowsDown (rowIndex + 1); VideoFromUrl (rowIndex + 1)]).
Proof.
  pose proof (findSpace_hasSpace s rowIndex 10000) as Hsp.
  pose proof (findSpace_mono s rowIndex 5000 10000) as Hmono.
  unfold dropGalleryVideoFallback, dropGalleryImageFallback in *.
  destruct (findSpace s rowIndex 10000) as [t10 h10].
  destruct (findSpace s rowIndex 5000) as [t5 h5].
  cbn [snd] in Hsp, Hmono.
  split; [|split].
  - rewrite <- Hsp. destruct h10; split; try reflexivity; discriminate.
  - destruct h10; [intros H; now elim H | reflexivity].
  - destruct h10; [|reflexivity].
    rewrite Hmono by (reflexivity || (unfold Qle; cbn; lia)). discriminate.
Qed.

Lemma X16_video_without_ghost_witness :
  dropGalleryImageFallback exampleRow 0
  = [ShiftRowsDown 1; AddImageLocal 1 0] /\
  dropGalleryVideoFallback exampleRow 0
  = [VideoShiftRowsDown 1; VideoFromUrl 1] /\
  dropGalleryVideoFallback longRow 0 = [VideoFromUrl 0%Z].
Proof.
  destruct (X16_video_without_ghost exampleRow 0) as (_ & _ & Himg).
  destruct (X16_video_without_ghost longRow 0) as (Hstay & _ & _).
  split; [reflexivity|]. split.
  - apply Himg. reflexivity.
  - apply Hstay. right. exists (0, 12000)%Q. split.
    + left. reflexivity.
    + cbn. unfold Qle. cbn. lia.
Defined.

End VideoWithoutGhost.
